(** * Portfolio performance analytics: drawdown, Sharpe ratio, portfolio
      standard deviation

    A shallow embedding of [calculate_stats.py], [pf_std.py] and
    [prepare_df.py].

    The Python code is duck-typed over its numbers, so the embedding is
    written once over an arithmetic interface [Arith] and instantiated
    twice:
    - at [num], real numbers extended with the IEEE special values
      (infinities and NaN): unbounded range and precision, but division by
      zero, square roots of negatives and NaN-skipping reductions behave as
      numpy and pandas make them behave.  The theorems are stated here.
    - at [float], the binary64 numbers of the kernel, on which the same
      definitions run as the interpreter would run them.

    A date-indexed column is a list of (date, value) rows in index order.
    The data model of the analytics engine has the dates of a series
    distinct and increasing; label lookups ([loc]) and label slices
    ([loc_slice]) are modelled on such an index, and the statements that
    depend on it say so. *)

From Stdlib Require Import String.
From Stdlib Require Import Reals Lra Lia List ZArith Bool Sorted.
From Stdlib Require Floats Uint63 PrimFloat.
Import ListNotations.

Set Implicit Arguments.

(** ** Outcomes: a value or a raised Python exception *)

Inductive exn : Type := IndexError | ValueError | KeyError.

Inductive outcome (T : Type) : Type :=
| Returns (t : T)
| Raises (e : exn).

Arguments Returns {T} t.
Arguments Raises {T} e.

Definition bind {T U : Type} (m : outcome T) (k : T -> outcome U) : outcome U :=
  match m with
  | Returns t => k t
  | Raises e => Raises e
  end.

Notation "x <- m ;; k" := (bind m (fun x => k))
  (at level 61, m at next level, right associativity).

(** A [for] loop whose body may raise: the first exception ends it. *)
Fixpoint for_each {T U : Type} (body : T -> outcome U) (l : list T)
  : outcome (list U) :=
  match l with
  | [] => Returns []
  | t :: rest =>
      u <- body t ;;
      us <- for_each body rest ;;
      Returns (u :: us)
  end.

(** ** The arithmetic interface *)

Class Arith (A : Type) : Type := {
  fadd : A -> A -> A;
  fsub : A -> A -> A;
  fmul : A -> A -> A;
  fdiv : A -> A -> A;
  fsqrt : A -> A;
  flt : A -> A -> bool;
  fisnan : A -> bool;
  fisinf : A -> bool;
  fnan : A;
  of_int : Z -> A
}.

Declare Scope arith_scope.
Delimit Scope arith_scope with ar.
Notation "x [+] y" := (fadd x y) (at level 50, left associativity) : arith_scope.
Notation "x [-] y" := (fsub x y) (at level 50, left associativity) : arith_scope.
Notation "x [*] y" := (fmul x y) (at level 40, left associativity) : arith_scope.
Notation "x [/] y" := (fdiv x y) (at level 40, left associativity) : arith_scope.

(** ** Extended reals *)

Inductive num : Type :=
| Fin (r : R)
| PInf
| NInf
| NaN.

Definition Rltb (a b : R) : bool := if Rlt_dec a b then true else false.
Definition Reqb (a b : R) : bool := if Req_dec_T a b then true else false.

Definition nopp (x : num) : num :=
  match x with
  | Fin r => Fin (- r)
  | PInf => NInf
  | NInf => PInf
  | NaN => NaN
  end.

Definition nadd (x y : num) : num :=
  match x, y with
  | NaN, _ | _, NaN => NaN
  | Fin a, Fin b => Fin (a + b)
  | PInf, NInf | NInf, PInf => NaN
  | PInf, _ | _, PInf => PInf
  | NInf, _ | _, NInf => NInf
  end.

Definition nsub (x y : num) : num := nadd x (nopp y).

Definition inf_of (negative : bool) : num := if negative then NInf else PInf.

(** Sign of a non-NaN value; zero counts as positive (no signed zero). *)
Definition nneg (x : num) : bool :=
  match x with
  | Fin r => Rltb r 0
  | NInf => true
  | PInf | NaN => false
  end.

Definition nmul (x y : num) : num :=
  match x, y with
  | NaN, _ | _, NaN => NaN
  | Fin a, Fin b => Fin (a * b)
  | Fin a, _ => if Reqb a 0 then NaN else inf_of (xorb (nneg x) (nneg y))
  | _, Fin b => if Reqb b 0 then NaN else inf_of (xorb (nneg x) (nneg y))
  | _, _ => inf_of (xorb (nneg x) (nneg y))
  end.

(** numpy scalar division: [x / 0] is an infinity, [0 / 0] is NaN (with a
    warning, not an exception). *)
Definition ndiv (x y : num) : num :=
  match x, y with
  | NaN, _ | _, NaN => NaN
  | Fin a, Fin b =>
      if Reqb b 0 then (if Reqb a 0 then NaN else inf_of (Rltb a 0))
      else Fin (a / b)
  | Fin _, _ => Fin 0
  | _, Fin _ => inf_of (xorb (nneg x) (nneg y))
  | _, _ => NaN
  end.

(** [np.sqrt]: NaN on a negative argument. *)
Definition nsqrt (x : num) : num :=
  match x with
  | Fin a => if Rltb a 0 then NaN else Fin (sqrt a)
  | PInf => PInf
  | NInf | NaN => NaN
  end.

(** [x < y]; every comparison with NaN is false. *)
Definition nltb (x y : num) : bool :=
  match x, y with
  | Fin a, Fin b => Rltb a b
  | NInf, Fin _ | NInf, PInf | Fin _, PInf => true
  | _, _ => false
  end.

Definition nisnan (x : num) : bool :=
  match x with NaN => true | _ => false end.

Definition nisinf (x : num) : bool :=
  match x with PInf | NInf => true | _ => false end.

#[export] Instance num_arith : Arith num := {
  fadd := nadd; fsub := nsub; fmul := nmul; fdiv := ndiv; fsqrt := nsqrt;
  flt := nltb; fisnan := nisnan; fisinf := nisinf; fnan := NaN;
  of_int := fun z => Fin (IZR z)
}.

(** [x <= y] on the non-NaN values. *)
Definition nle (x y : num) : Prop :=
  match x, y with
  | NaN, _ | _, NaN => False
  | Fin a, Fin b => (a <= b)%R
  | NInf, _ | _, PInf => True
  | _, _ => False
  end.

(** ** Binary64 *)

Definition float_of_Z (z : Z) : PrimFloat.float :=
  match z with
  | Z0 => PrimFloat.zero
  | Zpos _ => PrimFloat.of_uint63 (Uint63.of_Z z)
  | Zneg p => PrimFloat.opp (PrimFloat.of_uint63 (Uint63.of_Z (Zpos p)))
  end.

#[export] Instance float_arith : Arith PrimFloat.float := {
  fadd := PrimFloat.add; fsub := PrimFloat.sub; fmul := PrimFloat.mul;
  fdiv := PrimFloat.div; fsqrt := PrimFloat.sqrt; flt := PrimFloat.ltb;
  fisnan := PrimFloat.is_nan; fisinf := PrimFloat.is_infinity;
  fnan := PrimFloat.nan; of_int := float_of_Z
}.

(** ** Dates and series *)

Record date : Type := mkdate { year : Z; month : Z; day : Z }.

Definition date_eqb (a b : date) : bool :=
  ((year a =? year b) && (month a =? month b) && (day a =? day b))%Z.

Definition date_ltb (a b : date) : bool :=
  ((year a <? year b)
   || ((year a =? year b)
       && ((month a <? month b)
           || ((month a =? month b) && (day a <? day b)))))%Z.

Definition date_leb (a b : date) : bool := date_ltb a b || date_eqb a b.

Definition date_lt (a b : date) : Prop := date_ltb a b = true.

Definition series (A : Type) : Type := list (date * A).

Definition index {A : Type} (s : series A) : list date := map fst s.
Definition values {A : Type} (s : series A) : list A := map snd s.

(** ** pandas and Python primitives *)

Section Primitives.
Context {A : Type} `{Arith A}.
Local Open Scope arith_scope.

(** Python's [max(a, b)]: [b] replaces [a] only when [b > a]. *)
Definition py_max (a b : A) : A := if flt a b then b else a.

Definition dropna (xs : list A) : list A :=
  filter (fun x => negb (fisnan x)) xs.

Definition np_sum (xs : list A) : A := fold_left fadd xs (of_int 0).

Definition count (xs : list A) : A := of_int (Z.of_nat (length xs)).

(** [Series.mean()]: NaN entries are skipped; NaN when nothing is left. *)
Definition mean (xs : list A) : A :=
  np_sum (dropna xs) [/] count (dropna xs).

(** [Series.std()], sample standard deviation ([ddof = 1]): NaN unless
    at least two observations are left once the NaN entries are
    skipped. *)
Definition std (xs : list A) : A :=
  let ys := dropna xs in
  if (length ys <=? 1)%nat then fnan
  else
    let avg := np_sum ys [/] count ys in
    fsqrt (np_sum (map (fun y => (avg [-] y) [*] (avg [-] y)) ys)
           [/] of_int (Z.of_nat (length ys) - 1)).

(** [Series.prod()]. *)
Definition prod (xs : list A) : A := fold_left fmul (dropna xs) (of_int 1).

(** An entry that a window aggregation of pandas counts: the window code
    turns the infinities into NaN before it aggregates, and NaN entries are
    skipped. *)
Definition observed (x : A) : bool := negb (fisnan x || fisinf x).

(** [Series.expanding().mean()] ([min_periods = 1]): a running sum and a
    running number of observations; entries that are NaN or infinite are
    skipped, and the mean is NaN until one observation has been seen. *)
Fixpoint expanding_mean_from (sum : A) (nobs : nat) (xs : list A) : list A :=
  match xs with
  | [] => []
  | x :: rest =>
      let sum' := if observed x then sum [+] x else sum in
      let nobs' := if observed x then S nobs else nobs in
      (if (1 <=? nobs')%nat then sum' [/] of_int (Z.of_nat nobs') else fnan)
        :: expanding_mean_from sum' nobs' rest
  end.

Definition expanding_mean (xs : list A) : list A :=
  expanding_mean_from (of_int 0) 0 xs.

(** [df.iloc[start:end]] for non-negative bounds. *)
Definition iloc_slice {T : Type} (start stop : Z) (l : list T) : list T :=
  firstn (Z.to_nat (stop - start)) (skipn (Z.to_nat start) l).

(** [range(0, stop, step)] for [stop >= 0]. *)
Definition py_range (stop step : Z) : outcome (list Z) :=
  if (step =? 0)%Z then Raises ValueError
  else if (step <? 0)%Z then Returns []
  else Returns (map (fun k => (Z.of_nat k * step)%Z)
                    (seq 0 (Z.to_nat ((stop + step - 1) / step)))).

End Primitives.

(** ** [calculate_draw_down] *)

Record dd_row (A : Type) : Type := mkrow {
  row_date : date;
  row_dd : A;
  row_mdd : A;
  row_avdd : A
}.

Inductive dd_frame (A : Type) : Type :=
| FullFrame (rows : list (dd_row A))
| WindowFrame (rows : list (A * A)).

Arguments FullFrame {A} rows.
Arguments WindowFrame {A} rows.

Section Drawdown.
Context {A : Type} `{Arith A}.
Local Open Scope arith_scope.

(** The loop of [get_full_period_dd]: one (date, dd, mdd) row per
    observation, with the running [peak] and [mdd] as loop state.  On a
    unique index [df.loc[i, column]] is the value of the row of date
    [i]. *)
Fixpoint dd_loop (peak mdd : A) (df : series A) : list (date * A * A) :=
  match df with
  | [] => []
  | (i, v) :: rest =>
      let peak := py_max peak v in
      let mdd := py_max mdd ((peak [-] v) [/] peak) in
      (i, (peak [-] v) [/] peak, mdd) :: dd_loop peak mdd rest
  end.

(** [df_result["avdd"] = df_result["dd"].expanding().mean()]. *)
Definition with_avdd (rows : list (date * A * A)) : list (dd_row A) :=
  map (fun '((i, dd, mdd), avdd) => mkrow i dd mdd avdd)
      (combine rows (expanding_mean (map (fun r => snd (fst r)) rows))).

Definition get_full_period_dd (df : series A) : outcome (list (dd_row A)) :=
  match df with
  | [] => Raises IndexError                        (* df.iloc[0] *)
  | (_, first) :: _ => Returns (with_avdd (dd_loop first (of_int 0) df))
  end.

Definition get_slices (df : series A) (n : Z) : outcome (list (series A)) :=
  starts <- py_range (Z.of_nat (length df)) n ;;
  Returns (map (fun start => iloc_slice start (start + n) df) starts).

(** [df_temp.iloc[-1]] of the [mdd] and [avdd] columns. *)
Definition last_summary (rows : list (dd_row A)) : outcome (A * A) :=
  match rev rows with
  | [] => Raises IndexError
  | r :: _ => Returns (row_mdd r, row_avdd r)
  end.

(** [pd.concat] refuses an empty list of objects. *)
Definition pd_concat {T : Type} (results : list T) : outcome (list T) :=
  match results with
  | [] => Raises ValueError
  | _ => Returns results
  end.

Definition calculate_draw_down (df : series A) (freq_days : Z)
    (full_period : bool) : outcome (dd_frame A) :=
  if full_period then
    rows <- get_full_period_dd df ;;
    Returns (FullFrame rows)
  else
    slices <- get_slices df freq_days ;;
    results <- for_each (fun df_slice =>
                           df_temp <- get_full_period_dd df_slice ;;
                           last_summary df_temp) slices ;;
    df_result <- pd_concat results ;;
    Returns (WindowFrame df_result).

End Drawdown.

(** ** [get_sharpe_ratio] *)

(** The label of a calendar bucket of [pd.Grouper(level="date", freq=...)]:
    a year for ["YE"], a month of a year for ["ME"] (pandas prints it as the
    last calendar day of the period). *)
Inductive period : Type :=
| YearEnd (y : Z)
| MonthEnd (y m : Z).

(** The calendar periods are numbered in calendar order: a year by itself,
    a month by [12 * year + month - 1]. *)
Definition period_number (freq : string) (d : date) : Z :=
  if String.eqb freq "YE" then year d else (12 * year d + (month d - 1))%Z.

Definition period_label (freq : string) (k : Z) : period :=
  if String.eqb freq "YE" then YearEnd k else MonthEnd (k / 12) (k mod 12 + 1).

Inductive sharpe_result (A : Type) : Type :=
| Scalar (v : A)
| PerBucket (rows : list (period * A)).

Arguments Scalar {A} v.
Arguments PerBucket {A} rows.

Section Sharpe.
Context {A : Type} `{Arith A}.
Local Open Scope arith_scope.

(** [s.loc[d]] on a unique index. *)
Fixpoint loc (d : date) (s : series A) : option A :=
  match s with
  | [] => None
  | (d', v) :: rest => if date_eqb d d' then Some v else loc d rest
  end.

(** [df.loc[start_date:end_date]] on a sorted index: the rows whose date
    lies between the two bounds, both included. *)
Definition loc_slice (start_date end_date : date) (s : series A) : series A :=
  filter (fun row => date_leb start_date (fst row) && date_leb (fst row) end_date) s.

(** The last line of [get_risk_free_rate], applied to the downloaded,
    daily resampled and forward-filled quotes [quotes]. *)
Definition get_risk_free_rate (quotes : series A) (start_date end_date : date)
  : series A :=
  filter (fun row => date_leb start_date (fst row) && date_leb (fst row) end_date)
         quotes.

(** [s.reindex(idx)]: NaN where [idx] has a date that [s] has not. *)
Definition reindex (idx : list date) (s : series A) : series A :=
  map (fun d => (d, match loc d s with Some v => v | None => fnan end)) idx.

Fixpoint ffill_from (last : option A) (s : series A) : series A :=
  match s with
  | [] => []
  | (d, v) :: rest =>
      if fisnan v
      then (d, match last with Some l => l | None => v end) :: ffill_from last rest
      else (d, v) :: ffill_from (Some v) rest
  end.

Definition ffill (s : series A) : series A := ffill_from None s.
Definition bfill (s : series A) : series A := rev (ffill (rev s)).

(** [s.pct_change()]: [s / s.shift(1) - 1], NaN at the first row. *)
Fixpoint pct_change_from (prev : A) (s : series A) : series A :=
  match s with
  | [] => []
  | (d, v) :: rest => (d, (v [/] prev) [-] of_int 1) :: pct_change_from v rest
  end.

Definition pct_change (s : series A) : series A :=
  match s with
  | [] => []
  | (d, v) :: rest => (d, fnan) :: pct_change_from v rest
  end.

Definition fillna (fill : A) (s : series A) : series A :=
  map (fun row => (fst row, if fisnan (snd row) then fill else snd row)) s.

Definition scale (k : A) (s : series A) : series A :=
  map (fun row => (fst row, snd row [*] k)) s.

(** [df_sharpe.sub(other, axis=0)]: subtraction aligned on the index.
    Every date of [df_sharpe] is a date of [other] here (the risk-free
    column was reindexed on the whole index), so the aligned index is
    [other]'s; a date that [df_sharpe] lacks gives NaN. *)
Definition series_sub (df_sharpe other : series A) : series A :=
  map (fun row => (fst row,
                   match loc (fst row) df_sharpe with
                   | Some v => v [-] snd row
                   | None => fnan
                   end)) other.

(** [groupby(pd.Grouper(level="date", freq=freq))]: one bucket for every
    calendar period from the period of the earliest date to the period of
    the latest date, in calendar order, each with its rows in index order.
    A period in which the column has no row is a bucket too, an empty one,
    and [apply] calls the function on it as on the others.  An empty
    column has no bucket. *)
Definition groupby (freq : string) (s : series A) : list (period * series A) :=
  match map (fun row => period_number freq (fst row)) s with
  | [] => []
  | k0 :: ks =>
      let first := fold_left Z.min ks k0 in
      let last := fold_left Z.max ks k0 in
      map (fun k => (period_label freq k,
                     filter (fun row => (period_number freq (fst row) =? k)%Z) s))
          (map (fun i => (first + Z.of_nat i)%Z)
               (seq 0 (Z.to_nat (last - first + 1))))
  end.

(** [df_risk_free.loc[x.index[-1]].values[0]]; [x.index[-1]] raises
    IndexError on an empty bucket. *)
Definition risk_free_at_last (df_risk_free x : series A) : outcome A :=
  match rev x with
  | [] => Raises IndexError
  | (d, _) :: _ =>
      match loc d df_risk_free with
      | Some r => Returns r
      | None => Raises KeyError
      end
  end.

Definition compound_return (x : list A) : A :=
  of_int 100
  [*] (prod (map (fun v => of_int 1 [+] (v [/] of_int 100)) x) [-] of_int 1).

Definition monthly_sharpe_from_daily (df_risk_free x : series A) : outcome A :=
  r <- risk_free_at_last df_risk_free x ;;
  let risk_free := r [/] of_int 12 in
  Returns ((compound_return (values x) [-] risk_free)
           [/] (std (values x) [*] fsqrt (count (values x)))).

Definition annualized_daily (df_risk_free x : series A) : outcome A :=
  risk_free <- risk_free_at_last df_risk_free x ;;
  Returns ((compound_return (values x) [-] risk_free)
           [/] (std (values x) [*] fsqrt (count (values x)))).

Definition valid_freq (freq : string) : bool :=
  String.eqb freq "ME" || String.eqb freq "YE".

Definition get_sharpe_ratio (quotes : series A) (start_date end_date : date)
    (df_index : series A) (freq : string) (full_period : bool)
  : outcome (sharpe_result A) :=
  if negb full_period && negb (valid_freq freq) then Raises ValueError
  else
    let df_index := loc_slice start_date end_date df_index in
    let df_risk_free := get_risk_free_rate quotes start_date end_date in
    let df_risk_free := bfill (ffill (reindex (index df_index) df_risk_free)) in
    let df_sharpe := scale (of_int 100) (fillna (of_int 0) (pct_change df_index)) in
    let df_sharpe := tl df_sharpe in
    if full_period then
      let df_sharpe :=
        series_sub df_sharpe
          (map (fun row => (fst row, snd row [/] of_int 365)) df_risk_free) in
      Returns (Scalar ((mean (values df_sharpe) [/] std (values df_sharpe))
                       [*] fsqrt (of_int 365)))
    else
      rows <- for_each
                (fun g =>
                   v <- (if String.eqb freq "YE"
                         then annualized_daily df_risk_free (snd g)
                         else monthly_sharpe_from_daily df_risk_free (snd g)) ;;
                   Returns (fst g, v))
                (groupby freq df_sharpe) ;;
      Returns (PerBucket rows).

End Sharpe.

(** ** [calculate_model_performance_stats] *)

Record stats (A : Type) : Type := mkstats {
  raw_value : A;
  returns : A;
  sharpe : sharpe_result A;
  mdd : A
}.

Section Stats.
Context {A : Type} `{Arith A}.
Local Open Scope arith_scope.

(** [s.iloc[-1]]. *)
Definition iloc_last {T : Type} (l : list T) : outcome T :=
  match rev l with
  | [] => Raises IndexError
  | t :: _ => Returns t
  end.

(** [s.iloc[0]] / [df.index[0]]. *)
Definition iloc_first {T : Type} (l : list T) : outcome T :=
  match l with
  | [] => Raises IndexError
  | t :: _ => Returns t
  end.

Definition full_frame_mdd (f : dd_frame A) : outcome A :=
  match f with
  | FullFrame rows => r <- iloc_last rows ;; Returns (row_mdd r)
  | WindowFrame rows => r <- iloc_last rows ;; Returns (fst r)
  end.

Definition calculate_model_performance_stats (quotes : series A)
    (df : series A) (base : A) : outcome (stats A) :=
  raw_value <- iloc_last (values df) ;;
  let returns := (raw_value [/] base) [-] of_int 1 in
  first_date <- iloc_first (index df) ;;
  last_date <- iloc_last (index df) ;;
  sharpe <- get_sharpe_ratio quotes first_date last_date df "YE" true ;;
  frame <- calculate_draw_down df 365 true ;;
  mdd <- full_frame_mdd frame ;;
  Returns (mkstats raw_value returns sharpe mdd).

End Stats.

(** ** [calculate_portfolio_std] *)

(** A two-dimensional numpy array: its shape and its entries. *)
Record ndarray2 (A : Type) : Type := mkarray {
  nrows : nat;
  ncols : nat;
  entry : nat -> nat -> A
}.

(** Broadcasting of one dimension: the two lengths are equal, or one of
    them is 1 and the other one wins. *)
Definition broadcast_dim (a b : nat) : option nat :=
  if (a =? b)%nat then Some a
  else if (a =? 1)%nat then Some b
  else if (b =? 1)%nat then Some a
  else None.

Section PortfolioStd.
Context {A : Type} `{Arith A}.
Local Open Scope arith_scope.

(** [np.outer(a, b)] of two vectors. *)
Definition np_outer (a b : list A) : ndarray2 A :=
  mkarray (length a) (length b)
          (fun i j => nth i a (of_int 0) [*] nth j b (of_int 0)).

(** [np.array(m)] of a list of rows.  The rows must have one length: numpy
    (from 1.24 on) raises ValueError on a ragged list.  The empty list is
    a vector of length 0, which broadcasting against a matrix reads as one
    row without entries. *)
Definition np_array2 (m : list (list A)) : outcome (ndarray2 A) :=
  match m with
  | [] => Returns (mkarray 1 0 (fun _ _ => of_int 0))
  | row :: rest =>
      if forallb (fun r => (length r =? length row)%nat) rest
      then Returns (mkarray (length m) (length row)
                            (fun i j => nth j (nth i m []) (of_int 0)))
      else Raises ValueError
  end.

(** [x * y] on two arrays: the elementwise product on the broadcast shape;
    a dimension of length 1 is repeated.  Shapes that cannot be broadcast
    raise ValueError. *)
Definition np_multiply (x y : ndarray2 A) : outcome (ndarray2 A) :=
  match broadcast_dim (nrows x) (nrows y), broadcast_dim (ncols x) (ncols y) with
  | Some r, Some c =>
      Returns (mkarray r c
                 (fun i j =>
                    entry x (if (nrows x =? 1)%nat then 0%nat else i)
                            (if (ncols x =? 1)%nat then 0%nat else j)
                    [*] entry y (if (nrows y =? 1)%nat then 0%nat else i)
                                (if (ncols y =? 1)%nat then 0%nat else j)))
  | _, _ => Raises ValueError
  end.

(** [np.dot] of a matrix and a vector: ValueError unless the vector has as
    many entries as the matrix has columns. *)
Definition np_dot_mv (m : ndarray2 A) (v : list A) : outcome (list A) :=
  if (ncols m =? length v)%nat
  then Returns (map (fun i =>
                       np_sum (map (fun j => entry m i j [*] nth j v (of_int 0))
                                   (seq 0 (ncols m))))
                    (seq 0 (nrows m)))
  else Raises ValueError.

(** [np.dot] of two vectors: ValueError unless they have one length. *)
Definition np_dot (a b : list A) : outcome A :=
  if (length a =? length b)%nat
  then Returns (np_sum (map (fun xy => fst xy [*] snd xy) (combine a b)))
  else Raises ValueError.

(** Lines 24 to 33: the arrays, the covariance matrix and the quadratic
    form. *)
Definition portfolio_variance (weights std_devs : list A)
    (correlations : list (list A)) : outcome A :=
  correlations <- np_array2 correlations ;;
  covariance_matrix <- np_multiply (np_outer std_devs std_devs) correlations ;;
  inner <- np_dot_mv covariance_matrix weights ;;
  np_dot weights inner.

(** The body has no [raise] of its own and no test on the variance:
    [np.sqrt] of it is returned, whatever its sign. *)
Definition calculate_portfolio_std (weights std_devs : list A)
    (correlations : list (list A)) : outcome A :=
  portfolio_variance <- portfolio_variance weights std_devs correlations ;;
  Returns (fsqrt portfolio_variance).

End PortfolioStd.

(** ** Reference definitions, after the words of the specification *)

(** A series of finite numbers as a series of [num]. *)
Definition fin_series (s : list (date * R)) : series num :=
  map (fun row => (fst row, Fin (snd row))) s.

(** The running-peak recurrence over the reals: [peak = max(peak, value)],
    [dd = (peak - value) / peak], [mdd = max(mdd_so_far, dd)]; a list of
    (dd, mdd) pairs. *)
Fixpoint spec_drawdown_from (peak mdd_so_far : R) (vs : list R) : list (R * R) :=
  match vs with
  | [] => []
  | value :: rest =>
      let peak := Rmax peak value in
      let dd := ((peak - value) / peak)%R in
      let mdd := Rmax mdd_so_far dd in
      (dd, mdd) :: spec_drawdown_from peak mdd rest
  end.

(** The running peak is initialized to the first value of the series. *)
Definition spec_drawdown (vs : list R) : list (R * R) :=
  match vs with
  | [] => []
  | first :: _ => spec_drawdown_from first 0 vs
  end.

Definition Rsum (xs : list R) : R := fold_right Rplus 0%R xs.

(** The arithmetic mean of a list of reals. *)
Definition arithmetic_mean (xs : list R) : R := (Rsum xs / INR (length xs))%R.

(** The names [get_sharpe_ratio] gives to its intermediate columns:
    [df_sharpe], the percent returns with the anchor row dropped, and
    [df_risk_free], the risk-free column on the index of the sliced
    frame. *)
Definition df_sharpe_of {A : Type} `{Arith A}
    (start_date end_date : date) (df_index : series A) : series A :=
  tl (scale (of_int 100)
        (fillna (of_int 0) (pct_change (loc_slice start_date end_date df_index)))).

Definition df_risk_free_of {A : Type} `{Arith A} (quotes : series A)
    (start_date end_date : date) (df_index : series A) : series A :=
  bfill (ffill (reindex (index (loc_slice start_date end_date df_index))
                        (get_risk_free_rate quotes start_date end_date))).

(** Scenario data. *)
Definition scenario_dates : list date :=
  [mkdate 2024 1 1; mkdate 2024 1 2; mkdate 2024 1 3; mkdate 2024 1 4;
   mkdate 2024 1 5].

Definition drawdown_scenario : list (date * R) :=
  combine scenario_dates [100; 90; 95; 80; 120]%R.

(** The Sharpe scenario: four consecutive business days, risk-free rate
    constantly 0, and the percent returns of the series once the anchor
    row is dropped. *)
Definition sharpe_dates : list date :=
  [mkdate 2024 1 1; mkdate 2024 1 2; mkdate 2024 1 3; mkdate 2024 1 4].

Definition sharpe_scenario : list (date * R) :=
  combine sharpe_dates [1000; 1100; 1050; 1200]%R.

Definition zero_quotes : series num := map (fun d => (d, Fin 0)) sharpe_dates.

Definition scenario_returns : list num :=
  [Fin 10; Fin (-50 / 11); Fin (100 / 7)].

(** [mean(pct_changes) / stdev(pct_changes) * sqrt(365)]. *)
Definition spec_scenario_sharpe {A : Type} `{Arith A} (pct_changes : list A) : A :=
  fmul (fdiv (mean pct_changes) (std pct_changes)) (fsqrt (of_int 365)).

(** A series over a year end: three rows in 2023, one in 2024. *)
Definition year_end_dates : list date :=
  [mkdate 2023 12 27; mkdate 2023 12 28; mkdate 2023 12 29; mkdate 2024 1 2].

Definition year_end_scenario : list (date * R) :=
  combine year_end_dates [100; 110; 99; 108]%R.

(** A series over a month without observation: two rows in January 2024,
    two in March, none in February. *)
Definition month_gap_dates : list date :=
  [mkdate 2024 1 30; mkdate 2024 1 31; mkdate 2024 3 1; mkdate 2024 3 4].

Definition month_gap_scenario : list (date * R) :=
  combine month_gap_dates [100; 110; 99; 108]%R.

Definition month_gap_quotes : series num :=
  map (fun d => (d, Fin 0)) month_gap_dates.

(** Scenario data on binary64; 0.1, 0.05 and 0.2 are the nearest
    representable numbers, as Python reads the literals. *)
Section Binary64Data.
Import PrimFloat.

Definition f0_1 : float := 0x1.999999999999ap-4%float.
Definition f0_05 : float := 0x1.999999999999ap-5%float.
Definition f0_2 : float := 0x1.999999999999ap-3%float.

Definition drawdown_scenario64 : series float :=
  combine scenario_dates [100; 90; 95; 80; 120]%float.

Definition sharpe_scenario64 : series float :=
  combine sharpe_dates [1000; 1100; 1050; 1200]%float.

Definition zero_quotes64 : series float :=
  map (fun d => (d, 0%float)) sharpe_dates.

Definition year_end_scenario64 : series float :=
  combine year_end_dates [100; 110; 99; 108]%float.

Definition month_gap_scenario64 : series float :=
  combine month_gap_dates [100; 110; 99; 108]%float.

Definition month_gap_quotes64 : series float :=
  map (fun d => (d, 0%float)) month_gap_dates.

(** [lo < x < hi]. *)
Definition between (lo hi x : float) : bool := ltb lo x && ltb x hi.

(** The exact value of a finite binary64 number, counted in units of
    [2^-1074], the smallest positive number of the format; [None] for an
    infinity and for NaN. *)
Definition exact_value (x : float) : option Z :=
  match FloatOps.Prim2SF x with
  | SpecFloat.S754_zero _ => Some 0%Z
  | SpecFloat.S754_finite s m e =>
      Some ((if s then -1 else 1) * Z.pos m * 2 ^ (e + 1074))%Z
  | _ => None
  end.

(** The exact sum of a list of finite binary64 numbers, in the same
    units. *)
Definition exact_sum (xs : list float) : option Z :=
  fold_right (fun x acc =>
                match exact_value x, acc with
                | Some v, Some a => Some (v + a)%Z
                | _, _ => None
                end) (Some 0%Z) xs.

End Binary64Data.

(** ** [prepare_portfolio_df] *)

(** The frame [prepare_portfolio_df] returns: its business-day index, one
    close column and one percent-change column per ticker, and the three
    portfolio columns. *)
Record portfolio_df (A : Type) : Type := mkpf {
  pf_index : list date;
  pf_close : list (string * series A);
  pf_pct : list (string * series A);
  pf_pct_change : series A;
  cumulative_returns : series A;
  pf_val : series A
}.

Section Prepare.
Context {A : Type} `{Arith A}.
Local Open Scope arith_scope.

(** Python's [abs] on a number. *)
Definition py_abs (x : A) : A := if flt x (of_int 0) then of_int 0 [-] x else x.

(** [sum(abs(x) for x in tickers.values())]: [sum] starts from 0 and adds
    from left to right, each addition rounded by the arithmetic (CPython
    up to 3.11; from 3.12 on [sum] compensates the rounding errors of
    floats). *)
Definition total_abs_weight (tickers : list (string * A)) : A :=
  fold_left (fun acc t => acc [+] py_abs (snd t)) tickers (of_int 0).

(** [df.ffill().bfill()] on one column. *)
Definition fill (c : series A) : series A := bfill (ffill c).

(** The first loop: each ticker's close column is joined on the index
    ([merge(..., how="left")] on a unique index is a reindex), then the
    whole frame is filled forward and backward. *)
Definition merge_closes (bdays : list date) (download : string -> series A)
    (tickers : list (string * A)) : list (string * series A) :=
  fold_left
    (fun cols t =>
       map (fun c => (fst c, fill (snd c)))
           (cols ++ [(fst t, reindex bdays (download (fst t)))]))
    tickers [].

(** [s1 + s2] on two columns of one index. *)
Definition series_add (s1 s2 : series A) : series A :=
  map (fun rows => (fst (fst rows), snd (fst rows) [+] snd (snd rows)))
      (combine s1 s2).

(** [sum(columns)]: [0 + c1 + c2 + ...]; with nothing to add the scalar 0
    is broadcast on the index. *)
Definition sum_columns (bdays : list date) (cols : list (series A)) : series A :=
  match cols with
  | [] => map (fun d => (d, of_int 0)) bdays
  | c :: rest =>
      fold_left series_add rest (map (fun row => (fst row, of_int 0 [+] snd row)) c)
  end.

(** [Series.cumprod()]: NaN entries count as 1 in the running product and
    stay NaN in the result; the first entry opens the product. *)
Fixpoint cumprod_from (acc : option A) (s : series A) : series A :=
  match s with
  | [] => []
  | (d, x) :: rest =>
      let x1 := if fisnan x then of_int 1 else x in
      let acc' := match acc with None => x1 | Some a => a [*] x1 end in
      (d, if fisnan x then fnan else acc') :: cumprod_from (Some acc') rest
  end.

Definition cumprod (s : series A) : series A := cumprod_from None s.

(** [bdays] is [pd.bdate_range(start, end - BusinessDay(1))] and
    [download ticker] the ["Close"] column of [yf.download(ticker, ...)]:
    both come from outside. *)
Definition prepare_portfolio_df (bdays : list date)
    (download : string -> series A) (tickers : list (string * A)) (base : A)
  : outcome (portfolio_df A) :=
  match tickers with
  | [] => Raises ValueError
  | _ =>
      if flt (of_int 1) (total_abs_weight tickers) then Raises ValueError
      else
        let closes := merge_closes bdays download tickers in
        let pcts :=
          map (fun c => (fst c, fillna (of_int 0) (pct_change (snd c)))) closes in
        let weighted :=
          map (fun t => scale (snd t)
                          (match find (fun c => String.eqb (fst c) (fst t)) pcts with
                           | Some c => snd c
                           | None => []
                           end)) tickers in
        let pf_pct_change := sum_columns bdays weighted in
        let cumulative_returns :=
          cumprod (map (fun row => (fst row, of_int 1 [+] snd row)) pf_pct_change) in
        let pf_val :=
          map (fun row => (fst row, base [*] snd row)) cumulative_returns in
        Returns (mkpf bdays closes pcts pf_pct_change cumulative_returns pf_val)
  end.

End Prepare.

(** ** Reference definitions for the portfolio variance *)

(** Dot product of two real vectors. *)
Definition Rdot (a b : list R) : R :=
  Rsum (map (fun xy => (fst xy * snd xy)%R) (combine a b)).

(** The docstring of [calculate_portfolio_std]:
    the double sum of [w_i w_j sigma_i sigma_j rho_ij] over [i, j < n]. *)
Definition variance_formula (n : nat) (w sigma : list R) (rho : list (list R)) : R :=
  Rsum (map (fun i =>
               Rsum (map (fun j =>
                            (nth i w 0 * nth j w 0 * nth i sigma 0 * nth j sigma 0
                             * nth j (nth i rho []) 0)%R)
                         (seq 0 n)))
            (seq 0 n)).

(** An [n] by [n] matrix. *)
Definition square (n : nat) (m : list (list R)) : Prop :=
  length m = n /\ Forall (fun row => length row = n) m.

(** ** Predicates used by the statements *)

(** The bounds kept by the drawdown loop and by the expanding mean on
    strictly positive values: [0 <= dd <= mdd <= 1] and
    [0 <= avdd <= mdd]. *)
Definition row_bounds (dd mdd avdd : num) : Prop :=
  exists d m a : R,
    dd = Fin d /\ mdd = Fin m /\ avdd = Fin a
    /\ (0 <= d <= m /\ m <= 1 /\ 0 <= a <= m)%R.

(** A row whose value is not NaN. *)
Definition is_number {A : Type} `{Arith A} (row : date * A) : Prop :=
  fisnan (snd row) = false.

(** A column that opens on date [d0] with a number equal to 0. *)
Definition head_zero (d0 : date) (col : series num) : Prop :=
  exists (z : R) (rest : series num), col = (d0, Fin z) :: rest /\ z = 0%R.

Unset Implicit Arguments.

(** ** Arithmetic of [num] *)

Local Open Scope R_scope.

Lemma Rltb_true (a b : R) : a < b -> Rltb a b = true.
Proof. intro; unfold Rltb; destruct (Rlt_dec a b); [reflexivity | contradiction]. Qed.

Lemma Rltb_false (a b : R) : b <= a -> Rltb a b = false.
Proof. intro; unfold Rltb; destruct (Rlt_dec a b); [lra | reflexivity]. Qed.

Lemma Rltb_lt (a b : R) : Rltb a b = true -> a < b.
Proof. unfold Rltb; destruct (Rlt_dec a b); [trivial | discriminate]. Qed.

Lemma Reqb_true (a b : R) : a = b -> Reqb a b = true.
Proof. intro; unfold Reqb; destruct (Req_dec_T a b); [reflexivity | contradiction]. Qed.

Lemma Reqb_false (a b : R) : a <> b -> Reqb a b = false.
Proof. intro; unfold Reqb; destruct (Req_dec_T a b); [contradiction | reflexivity]. Qed.

Lemma ndiv_fin (a b : R) : b <> 0 -> ndiv (Fin a) (Fin b) = Fin (a / b).
Proof. intro; simpl; now rewrite Reqb_false. Qed.

Lemma ndiv_zero_zero : ndiv (Fin 0) (Fin 0) = NaN.
Proof. simpl; now rewrite !Reqb_true. Qed.

Lemma nsqrt_fin (a : R) : 0 <= a -> nsqrt (Fin a) = Fin (sqrt a).
Proof. intro; simpl; now rewrite Rltb_false. Qed.

Lemma py_max_fin (a b : R) : py_max (Fin a) (Fin b) = Fin (Rmax a b).
Proof.
  unfold py_max; simpl; unfold Rltb, Rmax.
  destruct (Rlt_dec a b), (Rle_dec a b); try reflexivity; try lra.
  f_equal; lra.
Qed.

Lemma py_max_nan_r (x : num) : py_max x NaN = x.
Proof. unfold py_max; simpl; now destruct x. Qed.

Lemma nle_refl (x : num) : x <> NaN -> nle x x.
Proof. destruct x; simpl; try easy; intros; lra. Qed.

Lemma nle_trans (x y z : num) : nle x y -> nle y z -> nle x z.
Proof. destruct x, y, z; simpl; try easy; intros; lra. Qed.

Lemma nltb_nle (x y : num) : nltb x y = true -> nle x y.
Proof.
  destruct x, y; simpl; try easy.
  intro E; apply Rltb_lt in E; lra.
Qed.

Lemma nltb_not_nan (x y : num) : nltb x y = true -> y <> NaN.
Proof. destruct x, y; simpl; easy. Qed.

(** ** The frame built by [get_full_period_dd] *)

Section Frame.
Context {A : Type} `{Arith A}.

Lemma with_avdd_columns (rows : list (date * A * A)) :
  map (@row_date A) (with_avdd rows) = map (fun r => fst (fst r)) rows
  /\ map (@row_dd A) (with_avdd rows) = map (fun r => snd (fst r)) rows
  /\ map (@row_mdd A) (with_avdd rows) = map snd rows
  /\ map (@row_avdd A) (with_avdd rows)
     = expanding_mean (map (fun r => snd (fst r)) rows).
Proof.
  unfold with_avdd, expanding_mean.
  generalize (of_int 0) 0%nat.
  induction rows as [|[[i dd] m] rows IH]; intros sum nobs; simpl.
  - repeat split.
  - destruct (IH (if observed dd then fadd sum dd else sum)
                 (if observed dd then S nobs else nobs)) as (E1 & E2 & E3 & E4).
    repeat split; f_equal; assumption.
Qed.

Lemma length_with_avdd (rows : list (date * A * A)) :
  length (with_avdd rows) = length rows.
Proof.
  rewrite <- (length_map (@row_date A)).
  rewrite (proj1 (with_avdd_columns rows)). apply length_map.
Qed.

Lemma length_dd_loop (df : series A) :
  forall peak mdd, length (dd_loop peak mdd df) = length df.
Proof.
  induction df as [|[i v] df IH]; intros; simpl; [reflexivity | now rewrite IH].
Qed.

End Frame.

(** ** The drawdown loop on finite, strictly positive values *)

Lemma dd_loop_fin (s : list (date * R)) :
  forall peak mdd_so_far,
    0 < peak ->
    Forall (fun row => 0 < snd row) s ->
    dd_loop (Fin peak) (Fin mdd_so_far) (fin_series s)
    = map (fun r => (fst r, Fin (fst (snd r)), Fin (snd (snd r))))
          (combine (map fst s) (spec_drawdown_from peak mdd_so_far (map snd s))).
Proof.
  induction s as [|[i v] s IH]; intros peak m Hpeak Hpos; [reflexivity|].
  inversion Hpos as [|? ? Hv Hrest]; subst. simpl in Hv.
  assert (Hmax : 0 < Rmax peak v).
  { apply Rlt_le_trans with peak; [assumption | apply Rmax_l]. }
  cbn [fin_series map fst snd dd_loop spec_drawdown_from combine].
  rewrite py_max_fin.
  cbn [fsub fdiv num_arith nsub nopp nadd].
  rewrite ndiv_fin by lra.
  rewrite py_max_fin.
  fold (fin_series s).
  rewrite (IH _ _ Hmax Hrest).
  reflexivity.
Qed.

Lemma length_spec_drawdown_from (vs : list R) :
  forall peak m, length (spec_drawdown_from peak m vs) = length vs.
Proof. induction vs as [|v vs IH]; intros; simpl; [reflexivity | now rewrite IH]. Qed.

(** ** The running maximum drawdown is monotone *)

Lemma dd_loop_mdd_sorted (df : series num) :
  forall peak mdd_so_far,
    mdd_so_far <> NaN ->
    Forall (nle mdd_so_far) (map snd (dd_loop peak mdd_so_far df))
    /\ StronglySorted nle (map snd (dd_loop peak mdd_so_far df)).
Proof.
  induction df as [|[i v] df IH]; intros peak m Hm; simpl.
  - split; constructor.
  - set (peak' := py_max peak v).
    set (dd := fdiv (fsub peak' v) peak').
    assert (Hstep : nle m (py_max m dd) /\ py_max m dd <> NaN).
    { unfold py_max. destruct (flt m dd) eqn:E.
      - split; [now apply nltb_nle | now apply nltb_not_nan in E].
      - split; [now apply nle_refl | assumption]. }
    destruct Hstep as [Hle Hnn].
    destruct (IH peak' (py_max m dd) Hnn) as [Hall Hsorted].
    split.
    + constructor; [assumption|].
      eapply Forall_impl; [|exact Hall].
      intros x Hx. eapply nle_trans; eassumption.
    + constructor; assumption.
Qed.

(** On non-negative values the peak is non-negative and every drawdown that
    is a number lies between 0 and 1. *)
Lemma dd_loop_mdd_le_1 (s : list (date * R)) :
  forall peak m,
    0 <= peak -> 0 <= m <= 1 ->
    Forall (fun row => 0 <= snd row) s ->
    Forall (fun x => nle x (Fin 1))
           (map snd (dd_loop (Fin peak) (Fin m) (fin_series s))).
Proof.
  induction s as [|[i v] s IH]; intros peak m Hpeak Hm Hpos; [constructor|].
  inversion Hpos as [|? ? Hv Hrest]; subst. simpl in Hv.
  cbn [fin_series map fst snd dd_loop].
  rewrite py_max_fin.
  cbn [fsub fdiv num_arith nsub nopp nadd].
  fold (fin_series s).
  assert (Hmax : 0 <= Rmax peak v) by (eapply Rle_trans; [exact Hpeak | apply Rmax_l]).
  assert (Hvmax : v <= Rmax peak v) by apply Rmax_r.
  destruct (Req_dec_T (Rmax peak v) 0) as [E|E].
  - rewrite E. replace (0 + - v) with 0 by lra.
    rewrite ndiv_zero_zero, py_max_nan_r.
    constructor; [simpl; lra|].
    rewrite <- E. apply IH; assumption.
  - rewrite ndiv_fin by assumption.
    rewrite py_max_fin.
    assert (Hdd : 0 <= (Rmax peak v + - v) / Rmax peak v <= 1).
    { split.
      - apply Rmult_le_pos; [lra|]. left; apply Rinv_0_lt_compat; lra.
      - apply Rmult_le_reg_r with (Rmax peak v); [lra|].
        unfold Rdiv. rewrite Rmult_assoc, Rinv_l by assumption. lra. }
    assert (Hm' : 0 <= Rmax m ((Rmax peak v + - v) / Rmax peak v) <= 1).
    { split; [eapply Rle_trans; [apply (proj1 Hm) | apply Rmax_l]|].
      apply Rmax_lub; lra. }
    constructor; [simpl; lra|].
    apply IH; assumption.
Qed.

Ltac eval_Rmax :=
  repeat match goal with
         | |- context [Rmax ?a ?b] =>
             first [ rewrite (Rmax_left a b) by lra
                   | rewrite (Rmax_right a b) by lra ]
         end.

Lemma get_full_period_dd_fin (s : list (date * R)) :
  s <> [] ->
  Forall (fun row => 0 < snd row) s ->
  exists rows,
    get_full_period_dd (fin_series s) = Returns rows
    /\ map (@row_date num) rows = map fst s
    /\ map (@row_dd num) rows
       = map (fun p => Fin (fst p)) (spec_drawdown (map snd s))
    /\ map (@row_mdd num) rows
       = map (fun p => Fin (snd p)) (spec_drawdown (map snd s)).
Proof.
  intros Hne Hpos. destruct s as [|[i v] s]; [contradiction|].
  assert (Hv : 0 < v) by (inversion Hpos; assumption).
  exists (with_avdd (dd_loop (Fin v) (Fin 0) (fin_series ((i, v) :: s)))).
  split; [reflexivity|].
  destruct (with_avdd_columns (dd_loop (Fin v) (Fin 0) (fin_series ((i, v) :: s))))
    as (E1 & E2 & E3 & _).
  rewrite E1, E2, E3.
  rewrite (dd_loop_fin _ _ _ Hv Hpos).
  rewrite !map_map. cbn [fst snd].
  assert (Hlen : length (map fst ((i, v) :: s))
                 = length (spec_drawdown_from v 0 (map snd ((i, v) :: s)))).
  { now rewrite length_spec_drawdown_from, !length_map. }
  change (spec_drawdown (map snd ((i, v) :: s)))
    with (spec_drawdown_from v 0 (map snd ((i, v) :: s))).
  revert Hlen.
  generalize (spec_drawdown_from v 0 (map snd ((i, v) :: s))).
  generalize (map fst ((i, v) :: s)).
  induction l as [|d l IH]; intros [|p l0] Hlen; simpl in *;
    try discriminate; [repeat split|].
  injection Hlen as Hlen. destruct (IH _ Hlen) as (F1 & F2 & F3).
  repeat split; f_equal; assumption.
Qed.

(** C2.  On every non-empty series of strictly positive values the
    full-period drawdown returns one row per input date, whose [dd] and
    [mdd] columns are those of the running-peak recurrence
    [peak = max(peak, value)], [dd = (peak - value) / peak],
    [mdd = max(mdd_so_far, dd)], with [dd = 0] at the first date; on the
    series 100, 90, 95, 80, 120 the [dd] column is 0, 0.1, 0.05, 0.2, 0 and
    the [mdd] column is 0, 0.1, 0.1, 0.2, 0.2. *)
Theorem full_period_drawdown_recurrence :
  (forall s : list (date * R),
      s <> [] ->
      Forall (fun row => 0 < snd row) s ->
      exists rows,
        get_full_period_dd (fin_series s) = Returns rows
        /\ map (@row_date num) rows = map fst s
        /\ map (@row_dd num) rows
           = map (fun p => Fin (fst p)) (spec_drawdown (map snd s))
        /\ map (@row_mdd num) rows
           = map (fun p => Fin (snd p)) (spec_drawdown (map snd s))
        /\ hd_error (map (@row_dd num) rows) = Some (Fin 0))
  /\ (exists rows,
        get_full_period_dd (fin_series drawdown_scenario) = Returns rows
        /\ map (@row_dd num) rows = [Fin 0; Fin 0.1; Fin 0.05; Fin 0.2; Fin 0]
        /\ map (@row_mdd num) rows = [Fin 0; Fin 0.1; Fin 0.1; Fin 0.2; Fin 0.2]).
Proof.
  split.
  - intros s Hne Hpos.
    destruct (get_full_period_dd_fin _ Hne Hpos) as (rows & E & Hd & Hdd & Hmdd).
    exists rows. repeat split; try assumption.
    rewrite Hdd. destruct s as [|[i v] s]; [contradiction|].
    assert (Hv : 0 < v) by (inversion Hpos; assumption).
    cbn [map snd spec_drawdown spec_drawdown_from hd_error fst].
    do 2 f_equal. rewrite (Rmax_left v v) by lra. field. lra.
  - assert (Hne : drawdown_scenario <> []) by discriminate.
    assert (Hpos : Forall (fun row => 0 < snd row) drawdown_scenario).
    { unfold drawdown_scenario; simpl; repeat constructor; simpl; lra. }
    destruct (get_full_period_dd_fin _ Hne Hpos) as (rows & E & _ & Hdd & Hmdd).
    exists rows. split; [assumption|].
    rewrite Hdd, Hmdd.
    unfold drawdown_scenario.
    cbn [combine scenario_dates map snd fst spec_drawdown spec_drawdown_from].
    eval_Rmax.
    split; repeat (f_equal; try lra).
Qed.

(** The recurrence theorem applied to the scenario series. *)
Lemma full_period_drawdown_recurrence_witness :
  exists rows,
    get_full_period_dd (fin_series drawdown_scenario) = Returns rows
    /\ map (@row_date num) rows = map fst drawdown_scenario
    /\ map (@row_dd num) rows
       = map (fun p => Fin (fst p)) (spec_drawdown (map snd drawdown_scenario))
    /\ map (@row_mdd num) rows
       = map (fun p => Fin (snd p)) (spec_drawdown (map snd drawdown_scenario))
    /\ hd_error (map (@row_dd num) rows) = Some (Fin 0).
Proof.
  apply (proj1 full_period_drawdown_recurrence drawdown_scenario).
  - discriminate.
  - unfold drawdown_scenario; simpl; repeat constructor; simpl; lra.
Defined.

(** C3 (as amended).  On every non-empty series, whatever the sign of its
    values, the [mdd] column of the full-period drawdown is non-decreasing
    from row to row; when no value is negative it never exceeds 1. *)
Theorem running_max_drawdown_monotone :
  forall df : series num,
    df <> [] ->
    exists rows,
      get_full_period_dd df = Returns rows
      /\ StronglySorted nle (map (@row_mdd num) rows)
      /\ (forall s : list (date * R),
             df = fin_series s ->
             Forall (fun row => 0 <= snd row) s ->
             Forall (fun m => nle m (Fin 1)) (map (@row_mdd num) rows)).
Proof.
  intros df Hne. destruct df as [|[i v] df]; [contradiction|].
  exists (with_avdd (dd_loop v (Fin 0) ((i, v) :: df))).
  split; [reflexivity|].
  destruct (with_avdd_columns (dd_loop v (Fin 0) ((i, v) :: df)))
    as (_ & _ & E3 & _).
  rewrite E3. split.
  - apply dd_loop_mdd_sorted. discriminate.
  - intros s Hs Hpos. rewrite Hs.
    destruct s as [|[i' v'] s]; [discriminate|].
    injection Hs as Hi Hv Hdf. subst v.
    apply dd_loop_mdd_le_1; [|lra|assumption].
    inversion Hpos; assumption.
Qed.

Lemma running_max_drawdown_monotone_witness :
  exists rows,
    get_full_period_dd (fin_series drawdown_scenario) = Returns rows
    /\ StronglySorted nle (map (@row_mdd num) rows)
    /\ (forall s : list (date * R),
           fin_series drawdown_scenario = fin_series s ->
           Forall (fun row => 0 <= snd row) s ->
           Forall (fun m => nle m (Fin 1)) (map (@row_mdd num) rows)).
Proof.
  apply (running_max_drawdown_monotone (fin_series drawdown_scenario)).
  discriminate.
Defined.

(** C3 as stated fails: after the values 1, -1 the drawdown is
    (1 - (-1)) / 1 = 2, and so is the running maximum. *)
Lemma running_max_drawdown_exceeds_1 :
  exists rows,
    get_full_period_dd
      (fin_series [(mkdate 2024 1 1, 1); (mkdate 2024 1 2, -1)]) = Returns rows
    /\ map (@row_mdd num) rows = [Fin 0; Fin 2]
    /\ ~ Forall (fun m => nle m (Fin 1)) (map (@row_mdd num) rows).
Proof.
  eexists. split; [reflexivity|].
  match goal with
  | |- map _ (with_avdd ?l) = _ /\ _ =>
      rewrite (proj1 (proj2 (proj2 (with_avdd_columns l))))
  end.
  assert (E : map snd (dd_loop (Fin 1) (of_int 0)
                         [(mkdate 2024 1 1, Fin 1); (mkdate 2024 1 2, Fin (-1))])
              = [Fin 0; Fin 2]).
  { cbn [dd_loop map snd].
    rewrite !py_max_fin. eval_Rmax.
    cbn [fsub fdiv num_arith nsub nopp nadd of_int].
    rewrite !ndiv_fin by lra.
    rewrite !py_max_fin. eval_Rmax.
    repeat (f_equal; try lra). }
  cbn [fin_series map fst snd]. rewrite E. split; [reflexivity|].
  intro F. inversion F as [|? ? _ F']; subst.
  inversion F' as [|? ? H2 _]; subst. simpl in H2. lra.
Qed.

(** ** Windows *)

Section Windows.
Context {A : Type} `{Arith A}.

Lemma firstn_plus {T : Type} (a b : nat) (l : list T) :
  firstn (a + b) l = firstn a l ++ firstn b (skipn a l).
Proof.
  revert l; induction a as [|a IH]; intros [|x l]; simpl;
    try reflexivity; [now destruct b | now rewrite IH].
Qed.

(** [get_slices] for a positive window: the chunk of rank [k] holds the
    rows [k * n], ..., [k * n + n - 1]. *)
Lemma get_slices_pos (df : series A) (n : Z) :
  (0 < n)%Z ->
  get_slices df n
  = Returns (map (fun k => firstn (Z.to_nat n) (skipn (k * Z.to_nat n) df))
                 (seq 0 (Z.to_nat ((Z.of_nat (length df) + n - 1) / n)))).
Proof.
  intro Hn. unfold get_slices, py_range.
  destruct (Z.eqb_spec n 0); [lia|].
  destruct (Z.ltb_spec n 0); [lia|].
  cbn [bind]. f_equal. rewrite map_map. apply map_ext. intro k.
  unfold iloc_slice. f_equal; [f_equal; lia|]. f_equal.
  rewrite Z2Nat.inj_mul, Nat2Z.id by lia. reflexivity.
Qed.

Lemma chunk_count_bounds (len : nat) (n : Z) :
  (0 < n)%Z ->
  let cnt := Z.to_nat ((Z.of_nat len + n - 1) / n) in
  (len <= cnt * Z.to_nat n)%nat
  /\ (forall k, (k < cnt)%nat -> (k * Z.to_nat n < len)%nat).
Proof.
  intros Hn cnt.
  pose proof (Z.mul_div_le (Z.of_nat len + n - 1) n Hn) as Hlo.
  pose proof (Z.mul_succ_div_gt (Z.of_nat len + n - 1) n Hn) as Hhi.
  assert (Hq : (0 <= (Z.of_nat len + n - 1) / n)%Z) by (apply Z.div_pos; lia).
  subst cnt. set (q := ((Z.of_nat len + n - 1) / n)%Z) in *.
  split.
  - apply Nat2Z.inj_le. rewrite Nat2Z.inj_mul, !Z2Nat.id by lia. nia.
  - intros k Hk. apply Nat2Z.inj_lt. rewrite Nat2Z.inj_mul, Z2Nat.id by lia.
    assert (Z.of_nat k + 1 <= q)%Z by lia. nia.
Qed.

Lemma get_slices_nonempty (df : series A) (n : Z) :
  (0 < n)%Z ->
  exists slices,
    get_slices df n = Returns slices
    /\ Forall (fun df_slice => df_slice <> []) slices
    /\ concat slices = df
    /\ (df <> [] -> slices <> []).
Proof.
  intro Hn. rewrite (get_slices_pos df n Hn). eexists. split; [reflexivity|].
  destruct (chunk_count_bounds (length df) n Hn) as [Hcover Hin].
  set (cnt := Z.to_nat ((Z.of_nat (length df) + n - 1) / n)) in *.
  set (N := Z.to_nat n) in *.
  assert (HN : (0 < N)%nat) by (subst N; lia).
  split; [|split].
  - apply Forall_forall. intros sl Hsl.
    apply in_map_iff in Hsl. destruct Hsl as (k & <- & Hk).
    apply in_seq in Hk. specialize (Hin k ltac:(lia)).
    intro E. apply (f_equal (@length _)) in E.
    rewrite length_firstn, length_skipn in E. simpl in E. lia.
  - assert (G : forall c, concat (map (fun k => firstn N (skipn (k * N) df)) (seq 0 c))
                          = firstn (c * N) df).
    { induction c as [|c IH]; [reflexivity|].
      rewrite seq_S, map_app, concat_app, IH. simpl.
      rewrite app_nil_r, <- firstn_plus. f_equal. lia. }
    rewrite G. apply firstn_all2. assumption.
  - intros Hne E. apply map_eq_nil in E.
    destruct df as [|r df]; [contradiction|].
    destruct cnt; [simpl in Hcover; lia | discriminate].
Qed.

Lemma for_each_returns {T U : Type} (body : T -> outcome U) (l : list T) :
  Forall (fun t => exists u, body t = Returns u) l ->
  exists us, for_each body l = Returns us /\ length us = length l.
Proof.
  induction 1 as [|t l [u Hu] _ [us [IH Hlen]]]; simpl.
  - exists []. split; reflexivity.
  - rewrite Hu, IH. exists (u :: us). simpl. split; [reflexivity | now rewrite Hlen].
Qed.

Lemma get_full_period_dd_returns (df : series A) :
  df <> [] ->
  exists rows, get_full_period_dd df = Returns rows /\ length rows = length df.
Proof.
  destruct df as [|[i v] df]; [contradiction|]. intros _.
  eexists. split; [reflexivity|].
  now rewrite length_with_avdd, length_dd_loop.
Qed.

Lemma iloc_last_returns {T : Type} (l : list T) :
  l <> [] -> exists t l', l = l' ++ [t] /\ iloc_last l = Returns t.
Proof.
  intro Hne. destruct (exists_last Hne) as (l' & t & ->).
  exists t, l'. split; [reflexivity|].
  unfold iloc_last. now rewrite rev_unit.
Qed.

Lemma last_summary_iloc_last (rows : list (dd_row A)) :
  last_summary rows = (r <- iloc_last rows ;; Returns (row_mdd r, row_avdd r)).
Proof. unfold last_summary, iloc_last. now destruct (rev rows). Qed.

Lemma window_summary_returns (df_slice : series A) :
  df_slice <> [] ->
  exists summary,
    (df_temp <- get_full_period_dd df_slice ;; last_summary df_temp)
    = Returns summary.
Proof.
  intro Hne. destruct (get_full_period_dd_returns df_slice Hne) as (rows & E & Hlen).
  rewrite E. cbn [bind]. rewrite last_summary_iloc_last.
  assert (Hrows : rows <> []).
  { intro; subst rows. destruct df_slice; [contradiction | discriminate]. }
  destruct (iloc_last_returns rows Hrows) as (t & l' & _ & ->).
  eexists; reflexivity.
Qed.

End Windows.

(** C4.  With [freq_days = len(df)] the windowed drawdown of a non-empty
    series has exactly one summary row, the (mdd, avdd) pair of the last
    row of the full-period drawdown of the same series.  (Nothing here
    depends on the sign of the values, nor on the arithmetic.) *)
Theorem one_window_is_full_period :
  forall (A : Type) (arith : Arith A) (df : series A),
    df <> [] ->
    exists rows last,
      get_full_period_dd df = Returns rows
      /\ iloc_last rows = Returns last
      /\ calculate_draw_down df (Z.of_nat (length df)) false
         = Returns (WindowFrame [(row_mdd last, row_avdd last)]).
Proof.
  intros A arith df Hne.
  destruct (get_full_period_dd_returns df Hne) as (rows & E & Hlen).
  assert (Hrows : rows <> []).
  { intro; subst rows. destruct df; [contradiction | discriminate]. }
  destruct (iloc_last_returns rows Hrows) as (last & l' & _ & Hlast).
  exists rows, last. split; [assumption|]. split; [assumption|].
  assert (Hn : (0 < Z.of_nat (length df))%Z).
  { destruct df; [contradiction | simpl; lia]. }
  unfold calculate_draw_down.
  rewrite (get_slices_pos df _ Hn).
  replace ((Z.of_nat (length df) + Z.of_nat (length df) - 1) / Z.of_nat (length df))%Z
    with 1%Z
    by (apply Z.div_unique with (Z.of_nat (length df) - 1)%Z; lia).
  change (Z.to_nat 1) with 1%nat.
  cbn [bind seq map for_each]. rewrite Nat2Z.id, Nat.mul_0_l.
  cbn [skipn]. rewrite firstn_all, E. cbn [bind].
  rewrite last_summary_iloc_last, Hlast. reflexivity.
Qed.

Lemma one_window_is_full_period_witness :
  exists rows last,
    get_full_period_dd (fin_series drawdown_scenario) = Returns rows
    /\ iloc_last rows = Returns last
    /\ calculate_draw_down (fin_series drawdown_scenario) 5 false
       = Returns (WindowFrame [(row_mdd last, row_avdd last)]).
Proof.
  apply (one_window_is_full_period num num_arith (fin_series drawdown_scenario)).
  discriminate.
Defined.

(** C10.  On an empty series the drawdown computation raises instead of
    returning an empty frame: in full-period mode at [df.iloc[0]]
    (IndexError), in windowed mode because there is no window to
    concatenate.  On a non-empty series the first-element access succeeds
    and the loop returns one row per observation (a zero peak makes numpy
    divide to an infinity or NaN, not raise); with a positive window every
    chunk handed to the loop is non-empty, the chunks partition the series,
    and one summary per chunk is returned. *)
Theorem drawdown_needs_nonempty_series :
  forall (A : Type) (arith : Arith A),
    get_full_period_dd (@nil (date * A)) = Raises IndexError
    /\ (forall n, calculate_draw_down (@nil (date * A)) n true = Raises IndexError)
    /\ (forall n, calculate_draw_down (@nil (date * A)) n false = Raises ValueError)
    /\ (forall df : series A,
           df <> [] ->
           (exists rows,
               get_full_period_dd df = Returns rows /\ length rows = length df)
           /\ (forall n, exists rows,
                  calculate_draw_down df n true = Returns (FullFrame rows)
                  /\ length rows = length df)
           /\ (forall n,
                  (0 < n)%Z ->
                  exists slices summaries,
                    get_slices df n = Returns slices
                    /\ Forall (fun df_slice => df_slice <> []) slices
                    /\ concat slices = df
                    /\ calculate_draw_down df n false
                       = Returns (WindowFrame summaries)
                    /\ length summaries = length slices)).
Proof.
  intros A arith. split; [reflexivity|]. split; [reflexivity|]. split.
  - intro n. unfold calculate_draw_down, get_slices, py_range. simpl.
    destruct (Z.eqb_spec n 0); [reflexivity|].
    destruct (Z.ltb_spec n 0); [reflexivity|].
    replace ((0 + n - 1) / n)%Z with ((n - 1) / n)%Z by (f_equal; lia).
    rewrite Z.div_small by lia. reflexivity.
  - intros df Hne.
    destruct (get_full_period_dd_returns df Hne) as (rows & E & Hlen).
    split; [exists rows; split; assumption|]. split.
    + intro n. exists rows. unfold calculate_draw_down. rewrite E.
      split; [reflexivity | assumption].
    + intros n Hn.
      destruct (get_slices_nonempty df n Hn) as (slices & Es & Hall & Hcat & Hsl).
      assert (Hbody : Forall (fun t => exists u,
                         (df_temp <- get_full_period_dd t ;; last_summary df_temp)
                         = Returns u) slices).
      { eapply Forall_impl; [|exact Hall]. intros sl. apply window_summary_returns. }
      destruct (for_each_returns _ slices Hbody) as (us & Eus & Hlus).
      exists slices, us. repeat (split; [assumption|]).
      unfold calculate_draw_down. rewrite Es. cbn [bind]. rewrite Eus. cbn [bind].
      split; [|assumption].
      destruct us as [|u us]; [|reflexivity].
      exfalso. apply (Hsl Hne). destruct slices; [reflexivity | discriminate].
Qed.

Lemma drawdown_needs_nonempty_series_witness :
  (exists rows,
      get_full_period_dd (fin_series drawdown_scenario) = Returns rows
      /\ length rows = 5%nat)
  /\ (exists slices summaries,
         get_slices (fin_series drawdown_scenario) 2 = Returns slices
         /\ Forall (fun df_slice => df_slice <> []) slices
         /\ concat slices = fin_series drawdown_scenario
         /\ calculate_draw_down (fin_series drawdown_scenario) 2 false
            = Returns (WindowFrame summaries)
         /\ length summaries = length slices).
Proof.
  destruct (drawdown_needs_nonempty_series num num_arith) as (_ & _ & _ & Hdf).
  destruct (Hdf (fin_series drawdown_scenario) ltac:(discriminate))
    as (Hfull & _ & Hwin).
  split; [exact Hfull | exact (Hwin 2%Z eq_refl)].
Defined.

(** ** The expanding mean *)

Lemma count_nonzero (n : nat) : IZR (Z.of_nat (S n)) <> 0.
Proof. rewrite <- INR_IZR_INZ. apply not_0_INR. discriminate. Qed.

Lemma expanding_mean_from_fin (dds : list R) :
  forall (sum : R) (nobs t : nat),
    (t < length dds)%nat ->
    nth t (expanding_mean_from (Fin sum) nobs (map Fin dds)) NaN
    = Fin ((sum + Rsum (firstn (S t) dds)) / INR (nobs + S t)).
Proof.
  induction dds as [|x dds IH]; intros sum nobs t Ht; [simpl in Ht; lia|].
  cbn [map expanding_mean_from observed fisnan fisinf num_arith nisnan nisinf orb negb fadd nadd Nat.leb fdiv of_int].
  rewrite (ndiv_fin _ _ (count_nonzero nobs)).
  destruct t as [|t].
  - cbn [nth firstn Rsum fold_right]. rewrite <- INR_IZR_INZ.
    do 2 f_equal; [lra | f_equal; lia].
  - cbn [nth]. simpl in Ht. rewrite IH by lia.
    change (firstn (S (S t)) (x :: dds)) with (x :: firstn (S t) dds).
    cbn [Rsum fold_right]. do 2 f_equal; [unfold Rsum; lra | f_equal; lia].
Qed.

(** C8 (as amended).  In exact arithmetic, on every non-empty series whose
    drawdowns are all numbers (no NaN, no infinity: the running peak is
    never zero), the [avdd] of row [t] is the arithmetic mean of the [dd]
    of the rows 0..t.  Every series of strictly positive values is such a
    series, and its [dd] column is the one of the running-peak recurrence.
    The equality is one of real numbers: the interpreter rounds the running
    sum and the quotient. *)
Theorem average_drawdown_is_running_mean :
  forall df : series num,
    df <> [] ->
    exists rows,
      get_full_period_dd df = Returns rows
      /\ (forall dds : list R,
             map (@row_dd num) rows = map Fin dds ->
             forall t, (t < length rows)%nat ->
               nth t (map (@row_avdd num) rows) NaN
               = Fin (arithmetic_mean (firstn (S t) dds)))
      /\ (forall s : list (date * R),
             df = fin_series s ->
             Forall (fun row => 0 < snd row) s ->
             map (@row_dd num) rows = map Fin (map fst (spec_drawdown (map snd s)))).
Proof.
  intros df Hne. destruct df as [|[i v] df]; [contradiction|].
  exists (with_avdd (dd_loop v (Fin 0) ((i, v) :: df))).
  split; [reflexivity|].
  destruct (with_avdd_columns (dd_loop v (Fin 0) ((i, v) :: df)))
    as (_ & E2 & _ & E4).
  split.
  - intros dds Hdds t Ht.
    rewrite E4, <- E2, Hdds. unfold expanding_mean.
    assert (Hlen : (t < length dds)%nat).
    { rewrite <- (length_map Fin dds), <- Hdds, length_map. exact Ht. }
    change (of_int 0) with (Fin 0).
    rewrite expanding_mean_from_fin by assumption.
    unfold arithmetic_mean. rewrite length_firstn, Nat.min_l by lia.
    do 2 f_equal. lra.
  - intros s Hs Hpos.
    assert (Hne' : s <> []) by (intro; subst s; discriminate).
    destruct (get_full_period_dd_fin s Hne' Hpos) as (rows & E & _ & Hdd & _).
    rewrite <- Hs in E.
    assert (Hrows : rows = with_avdd (dd_loop v (Fin 0) ((i, v) :: df))).
    { change (Returns (with_avdd (dd_loop v (Fin 0) ((i, v) :: df))) = Returns rows)
        in E.
      congruence. }
    rewrite <- Hrows, Hdd, map_map. reflexivity.
Qed.

Lemma average_drawdown_is_running_mean_witness :
  exists rows,
    get_full_period_dd (fin_series drawdown_scenario) = Returns rows
    /\ nth 3 (map (@row_avdd num) rows) NaN
       = Fin (arithmetic_mean
                (firstn 4 (map fst (spec_drawdown (map snd drawdown_scenario))))).
Proof.
  destruct (average_drawdown_is_running_mean (fin_series drawdown_scenario)
              ltac:(discriminate)) as (rows & E & Hmean & Hpos).
  exists rows. split; [exact E|].
  assert (Hdd : map (@row_dd num) rows
                = map Fin (map fst (spec_drawdown (map snd drawdown_scenario)))).
  { apply Hpos; [reflexivity|].
    unfold drawdown_scenario; simpl; repeat constructor; simpl; lra. }
  apply (Hmean _ Hdd 3%nat).
  rewrite <- (length_map (@row_dd num)), Hdd, !length_map. simpl. lia.
Defined.

(** ** Portfolio standard deviation *)

Lemma fold_left_Rplus (xs : list R) : forall a, fold_left Rplus xs a = a + Rsum xs.
Proof.
  induction xs as [|x xs IH]; intro a; cbn [fold_left Rsum fold_right].
  - lra.
  - rewrite IH. unfold Rsum. lra.
Qed.

Lemma np_sum_fin (xs : list R) : np_sum (map Fin xs) = Fin (Rsum xs).
Proof.
  unfold np_sum. change (of_int 0) with (Fin 0).
  assert (G : forall a, fold_left fadd (map Fin xs) (Fin a) = Fin (fold_left Rplus xs a)).
  { induction xs as [|x xs IH]; intro a; [reflexivity|]. cbn [map fold_left]. apply IH. }
  rewrite G, fold_left_Rplus. f_equal. lra.
Qed.

Lemma combine_map_fin (a b : list R) :
  combine (map Fin a) (map Fin b)
  = map (fun p => (Fin (fst p), Fin (snd p))) (combine a b).
Proof.
  revert b. induction a as [|x a IH]; intros [|y b]; try reflexivity.
  cbn [map combine fst snd]. now rewrite IH.
Qed.

Lemma nth_map_in {X Y : Type} (f : X -> Y) (l : list X) (i : nat) (dx : X) (dy : Y) :
  (i < length l)%nat -> nth i (map f l) dy = f (nth i l dx).
Proof.
  revert i. induction l as [|x l IH]; intros [|i] Hi; cbn [length] in Hi;
    try lia; [reflexivity|].
  cbn [map nth]. apply IH. lia.
Qed.

Lemma combine_seq_nth (a b : list R) (n : nat) :
  length a = n -> length b = n ->
  combine a b = map (fun i => (nth i a 0, nth i b 0)) (seq 0 n).
Proof.
  revert b n. induction a as [|x a IH]; intros [|y b] [|n] Ha Hb;
    try discriminate; [reflexivity|].
  cbn [length] in Ha, Hb. injection Ha as Ha. injection Hb as Hb.
  cbn [combine seq map nth]. f_equal.
  rewrite <- seq_shift, map_map. cbn [nth]. now apply IH.
Qed.

Lemma Rdot_nth (a b : list R) (n : nat) :
  length a = n -> length b = n ->
  Rdot a b = Rsum (map (fun i => nth i a 0 * nth i b 0) (seq 0 n)).
Proof.
  intros Ha Hb. unfold Rdot. rewrite (combine_seq_nth a b n Ha Hb), map_map.
  reflexivity.
Qed.

Lemma Rsum_scal (c : R) {X : Type} (f : X -> R) (l : list X) :
  c * Rsum (map f l) = Rsum (map (fun x => c * f x) l).
Proof.
  induction l as [|x l IH]; cbn [map Rsum fold_right]; [lra|].
  fold (Rsum (map f l)). fold (Rsum (map (fun x => c * f x) l)).
  rewrite <- IH. lra.
Qed.

Lemma Rsum_ext_in {X : Type} (f g : X -> R) (l : list X) :
  (forall x, In x l -> f x = g x) -> Rsum (map f l) = Rsum (map g l).
Proof. intro Hfg. f_equal. now apply map_ext_in. Qed.

(** A dimension that is not broadcast keeps its index. *)
Lemma broadcast_index (n i : nat) :
  (i < n)%nat -> (if (n =? 1)%nat then 0%nat else i) = i.
Proof. intro Hi. destruct (Nat.eqb_spec n 1); lia. Qed.

Lemma broadcast_dim_same (n : nat) : broadcast_dim n n = Some n.
Proof. unfold broadcast_dim. now rewrite Nat.eqb_refl. Qed.

(** [np.array] of a well-shaped matrix of numbers: [n] by [n] when
    [0 < n], one row without entries when [n = 0]. *)
Lemma np_array2_square (n : nat) (rho : list (list R)) :
  square n rho ->
  exists c : ndarray2 num,
    np_array2 (map (map Fin) rho) = Returns c
    /\ broadcast_dim n (nrows c) = Some n
    /\ broadcast_dim n (ncols c) = Some n
    /\ forall i j, (i < n)%nat -> (j < n)%nat ->
         entry c (if (nrows c =? 1)%nat then 0%nat else i)
                 (if (ncols c =? 1)%nat then 0%nat else j)
         = Fin (nth j (nth i rho []) 0).
Proof.
  intros [Hlen Hrows]. destruct rho as [|row rest].
  - cbn [length] in Hlen. subst n.
    eexists. split; [reflexivity|]. cbn [nrows ncols].
    repeat split. intros i j Hi. lia.
  - apply Forall_cons_iff in Hrows. destruct Hrows as [Hrow Hrest].
    cbn [map np_array2].
    assert (Hall : forallb (fun r : list num => (length r =? length (map Fin row))%nat)
                     (map (map Fin) rest) = true).
    { apply forallb_forall. intros r Hr. apply in_map_iff in Hr.
      destruct Hr as (r0 & <- & Hr0). rewrite !length_map.
      rewrite Forall_forall in Hrest. rewrite (Hrest r0 Hr0), Hrow.
      apply Nat.eqb_refl. }
    rewrite Hall. eexists. split; [reflexivity|]. cbn [nrows ncols entry].
    change (map Fin row :: map (map Fin) rest) with (map (map Fin) (row :: rest)).
    rewrite !length_map, Hrow, Hlen.
    split; [apply broadcast_dim_same|]. split; [apply broadcast_dim_same|].
    intros i j Hi Hj. rewrite !broadcast_index by assumption.
    change (@nil num) with (map Fin []).
    rewrite map_nth. change (of_int 0) with (Fin 0). now rewrite map_nth.
Qed.

(** On [n] weights, [n] standard deviations and an [n] by [n] matrix of
    numbers no shape test fails, and the quadratic form is the double sum
    of the docstring. *)
Lemma portfolio_variance_fin (n : nat) (w sigma : list R) (rho : list (list R)) :
  length w = n -> length sigma = n -> square n rho ->
  portfolio_variance (map Fin w) (map Fin sigma) (map (map Fin) rho)
  = Returns (Fin (variance_formula n w sigma rho)).
Proof.
  intros Hw Hs Hrho.
  destruct (np_array2_square n rho Hrho) as (c & Ec & Hr & Hc & Hentry).
  unfold portfolio_variance. rewrite Ec. cbn [bind].
  unfold np_multiply. cbn [np_outer nrows ncols entry].
  rewrite !length_map, Hs, Hr, Hc. cbn [bind].
  unfold np_dot_mv. cbn [nrows ncols entry].
  rewrite length_map, Hw, Nat.eqb_refl. cbn [bind].
  set (inner := fun i : nat =>
         Rsum (map (fun j => nth i sigma 0 * nth j sigma 0
                             * nth j (nth i rho []) 0 * nth j w 0) (seq 0 n))).
  match goal with
  | |- np_dot _ (map ?f (seq 0 n)) = _ =>
      assert (E : map f (seq 0 n) = map Fin (map inner (seq 0 n)))
  end.
  { rewrite map_map. apply map_ext_in. intros i Hi. apply in_seq in Hi.
    unfold inner. rewrite <- np_sum_fin, map_map. f_equal.
    apply map_ext_in. intros j Hj. apply in_seq in Hj.
    rewrite Hentry by lia. rewrite !broadcast_index by lia.
    change (of_int 0) with (Fin 0). rewrite !map_nth. reflexivity. }
  rewrite E. unfold np_dot.
  rewrite !length_map, length_seq, Hw, Nat.eqb_refl.
  rewrite combine_map_fin, map_map. cbn [fst snd].
  change (fun x : R * R => Fin (fst x) [*] Fin (snd x))%ar
    with (fun x : R * R => Fin (fst x * snd x)).
  rewrite <- (map_map (fun x : R * R => fst x * snd x) Fin), np_sum_fin.
  do 2 f_equal. fold (Rdot w (map inner (seq 0 n))).
  rewrite (Rdot_nth w _ n Hw) by now rewrite length_map, length_seq.
  unfold variance_formula. apply Rsum_ext_in. intros i Hi. apply in_seq in Hi.
  rewrite (nth_map_in inner _ i 0%nat 0) by (rewrite length_seq; lia).
  rewrite seq_nth by lia. cbn [Nat.add]. unfold inner.
  rewrite Rsum_scal. apply Rsum_ext_in. intros j _. ring.
Qed.

Lemma single_asset_variance (w sigma rho : R) :
  portfolio_variance [Fin w] [Fin sigma] [[Fin rho]]
  = Returns (Fin (w * w * sigma * sigma * rho)).
Proof.
  change (portfolio_variance (map Fin [w]) (map Fin [sigma]) (map (map Fin) [[rho]])
          = Returns (Fin (w * w * sigma * sigma * rho))).
  rewrite (portfolio_variance_fin 1 [w] [sigma] [[rho]] eq_refl eq_refl)
    by (split; [reflexivity | repeat constructor]).
  do 2 f_equal. unfold variance_formula, Rsum. cbn [seq map fold_right nth]. ring.
Qed.

Lemma single_asset_std_value (sigma rho : R) :
  0 <= sigma -> 0 <= rho ->
  calculate_portfolio_std [Fin 1] [Fin sigma] [[Fin rho]]
  = Returns (Fin (sigma * sqrt rho)).
Proof.
  intros Hs Hr.
  unfold calculate_portfolio_std. rewrite single_asset_variance.
  cbn [bind fsqrt num_arith].
  replace (1 * 1 * sigma * sigma * rho) with (sigma * sigma * rho) by lra.
  assert (0 <= sigma * sigma) by (apply Rmult_le_pos; assumption).
  rewrite nsqrt_fin by (apply Rmult_le_pos; assumption).
  rewrite sqrt_mult by assumption.
  now rewrite sqrt_square.
Qed.

Lemma nsqrt_negative (x : num) : nltb x (Fin 0) = true -> nsqrt x = NaN.
Proof.
  destruct x as [q| | |]; simpl; try discriminate; try reflexivity.
  now intros ->.
Qed.

(** C5 (as amended).  For a single fully invested asset with standard
    deviation [sigma >= 0] and correlation entry [rho >= 0] the result is
    [sigma * sqrt rho]: the asset's own standard deviation when [rho = 1],
    the diagonal of a correlation matrix. *)
Theorem single_asset_std :
  forall sigma rho : R,
    0 <= sigma -> 0 <= rho ->
    calculate_portfolio_std [Fin 1] [Fin sigma] [[Fin rho]]
    = Returns (Fin (sigma * sqrt rho))
    /\ (rho = 1 ->
        calculate_portfolio_std [Fin 1] [Fin sigma] [[Fin rho]]
        = Returns (Fin sigma)).
Proof.
  intros sigma rho Hs Hr.
  split; [now apply single_asset_std_value|].
  intros ->. rewrite single_asset_std_value by lra.
  now rewrite sqrt_1, Rmult_1_r.
Qed.

Lemma single_asset_std_witness :
  calculate_portfolio_std [Fin 1] [Fin 0.2] [[Fin 1]] = Returns (Fin 0.2).
Proof.
  apply (single_asset_std 0.2 1); [lra | lra | reflexivity].
Defined.

(** C5 as stated fails: with [sigma = 2] and a correlation entry of 0.25
    the result is 1, not 2. *)
Lemma single_asset_std_depends_on_correlation :
  calculate_portfolio_std [Fin 1] [Fin 2] [[Fin 0.25]] = Returns (Fin 1)
  /\ calculate_portfolio_std [Fin 1] [Fin 2] [[Fin 0.25]] <> Returns (Fin 2).
Proof.
  assert (E : calculate_portfolio_std [Fin 1] [Fin 2] [[Fin 0.25]] = Returns (Fin 1)).
  { rewrite single_asset_std_value by lra.
    replace 0.25 with (0.5 * 0.5) by lra.
    rewrite sqrt_square by lra. do 2 f_equal. lra. }
  split; [exact E|].
  rewrite E. intro F. injection F as F. lra.
Qed.

Lemma negative_variance_value (weights std_devs : list num)
    (correlations : list (list num)) (variance : num) :
  portfolio_variance weights std_devs correlations = Returns variance ->
  nltb variance (Fin 0) = true ->
  calculate_portfolio_std weights std_devs correlations = Returns NaN.
Proof.
  intros E Hneg. unfold calculate_portfolio_std. rewrite E. cbn [bind].
  f_equal. now apply nsqrt_negative.
Qed.

(** C6 (as amended).  [calculate_portfolio_std] has no test on the
    variance: whenever the quadratic form is computed and is negative, the
    function returns NaN and raises nothing.  This is so on every input of
    consistent shapes ([n] weights, [n] standard deviations, an [n] by [n]
    matrix of numbers) whose double sum [w_i w_j sigma_i sigma_j rho_ij] is
    negative.  The only exceptions of the function are the ValueError of
    numpy on shapes that do not fit, which do not depend on the sign. *)
Theorem negative_variance_returns_nan :
  (forall (weights std_devs : list num) (correlations : list (list num))
          (variance : num),
      portfolio_variance weights std_devs correlations = Returns variance ->
      nltb variance (Fin 0) = true ->
      calculate_portfolio_std weights std_devs correlations = Returns NaN)
  /\ (forall (n : nat) (w sigma : list R) (rho : list (list R)),
         length w = n -> length sigma = n -> square n rho ->
         variance_formula n w sigma rho < 0 ->
         calculate_portfolio_std (map Fin w) (map Fin sigma) (map (map Fin) rho)
         = Returns NaN)
  /\ (forall (weights std_devs : list num) (correlations : list (list num))
             (e : exn),
         calculate_portfolio_std weights std_devs correlations = Raises e ->
         e = ValueError).
Proof.
  split; [exact negative_variance_value|]. split.
  - intros n w sigma rho Hw Hs Hrho Hneg.
    apply (negative_variance_value _ _ _ _ (portfolio_variance_fin n w sigma rho Hw Hs Hrho)).
    cbn [nltb]. now apply Rltb_true.
  - intros w s c e. unfold calculate_portfolio_std, portfolio_variance.
    unfold np_array2, np_multiply, np_dot_mv, np_dot.
    repeat match goal with
           | |- context [match ?x with _ => _ end] => destruct x; cbn [bind]
           end; congruence.
Qed.

Lemma negative_variance_returns_nan_witness :
  calculate_portfolio_std [Fin 1] [Fin 3] [[Fin (-1)]] = Returns NaN
  /\ calculate_portfolio_std (map Fin [0.5; 0.5]) (map Fin [1; 1])
       (map (map Fin) [[1; -3]; [-3; 1]]) = Returns NaN.
Proof.
  split.
  - apply (proj1 negative_variance_returns_nan [Fin 1] [Fin 3] [[Fin (-1)]]
             (Fin (1 * 1 * 3 * 3 * -1))).
    + apply single_asset_variance.
    + cbn [nltb]. apply Rltb_true. lra.
  - apply (proj1 (proj2 negative_variance_returns_nan) 2%nat [0.5; 0.5] [1; 1]
             [[1; -3]; [-3; 1]] eq_refl eq_refl).
    + split; [reflexivity | repeat constructor].
    + unfold variance_formula, Rsum. cbn [seq map fold_right nth]. lra.
Defined.

(** C6 as stated fails: weights 1, standard deviation 1 and correlation
    entry -1 give the variance -1, and NaN is returned; no exception is
    raised. *)
Lemma negative_variance_is_not_an_error :
  portfolio_variance [Fin 1] [Fin 1] [[Fin (-1)]] = Returns (Fin (1 * 1 * 1 * 1 * -1))
  /\ 1 * 1 * 1 * 1 * -1 < 0
  /\ calculate_portfolio_std [Fin 1] [Fin 1] [[Fin (-1)]] = Returns NaN
  /\ forall e, calculate_portfolio_std [Fin 1] [Fin 1] [[Fin (-1)]] <> Raises e.
Proof.
  assert (E : calculate_portfolio_std [Fin 1] [Fin 1] [[Fin (-1)]] = Returns NaN).
  { apply (negative_variance_value _ _ _ _ (single_asset_variance 1 1 (-1))).
    cbn [nltb]. apply Rltb_true. lra. }
  split; [apply single_asset_variance|]. split; [lra|].
  split; [exact E|]. intro e. rewrite E. discriminate.
Qed.

(** ** A trailing window of one observation *)

Lemma for_each_app {T U : Type} (body : T -> outcome U) (l1 l2 : list T) :
  for_each body (l1 ++ l2)
  = (us1 <- for_each body l1 ;; us2 <- for_each body l2 ;; Returns (us1 ++ us2)).
Proof.
  induction l1 as [|t l1 IH]; simpl.
  - now destruct (for_each body l2).
  - destruct (body t); [|reflexivity]. cbn [bind]. rewrite IH.
    destruct (for_each body l1); [|reflexivity]. cbn [bind].
    now destruct (for_each body l2).
Qed.

Lemma get_slices_snoc {A : Type} `{Arith A} (df : series A) (x : date * A)
    (n : Z) (k : nat) :
  (0 < n)%Z ->
  length df = (k * Z.to_nat n)%nat ->
  exists slices,
    get_slices df n = Returns slices
    /\ length slices = k
    /\ Forall (fun df_slice => df_slice <> []) slices
    /\ get_slices (df ++ [x]) n = Returns (slices ++ [[x]]).
Proof.
  intros Hn Hlen.
  destruct (get_slices_nonempty df n Hn) as (slices & Es & Hall & _ & _).
  exists slices. split; [exact Es|].
  rewrite (get_slices_pos df n Hn) in Es.
  rewrite (get_slices_pos (df ++ [x]) n Hn).
  set (N := Z.to_nat n) in *.
  assert (HN : Z.of_nat N = n) by (subst N; lia).
  assert (Hc : Z.to_nat ((Z.of_nat (length df) + n - 1) / n) = k).
  { rewrite Hlen, Nat2Z.inj_mul, HN.
    rewrite <- (Z.div_unique (Z.of_nat k * n + n - 1) n (Z.of_nat k) (n - 1)); lia. }
  assert (Hc' : Z.to_nat ((Z.of_nat (length (df ++ [x])) + n - 1) / n) = S k).
  { rewrite length_app, Hlen. cbn [length].
    rewrite Nat2Z.inj_add, Nat2Z.inj_mul, HN.
    rewrite <- (Z.div_unique (Z.of_nat k * n + Z.of_nat 1 + n - 1) n
                  (Z.of_nat k + 1) 0); lia. }
  rewrite Hc in Es. rewrite Hc'.
  injection Es as Es. subst slices.
  split; [now rewrite length_map, length_seq|]. split; [assumption|].
  f_equal. rewrite seq_S, map_app. cbn [map Nat.add]. f_equal.
  - apply map_ext_in. intros j Hj. apply in_seq in Hj.
    assert (Hj' : (j * N + N <= k * N)%nat) by nia.
    rewrite skipn_app, firstn_app, length_skipn.
    replace (j * N - length df)%nat with 0%nat by lia.
    replace (N - (length df - j * N))%nat with 0%nat by lia.
    cbn [skipn firstn]. now rewrite app_nil_r.
  - rewrite skipn_app, <- Hlen, skipn_all, Nat.sub_diag. cbn [skipn app].
    destruct N; [lia|]. cbn [firstn]. now destruct N.
Qed.

Lemma single_row_drawdown (d : date) (v : R) :
  v <> 0 ->
  get_full_period_dd [(d, Fin v)] = Returns [mkrow d (Fin 0) (Fin 0) (Fin 0)].
Proof.
  intro Hv. unfold get_full_period_dd. f_equal.
  cbn [dd_loop]. rewrite py_max_fin, (Rmax_left v v) by lra.
  cbn [fsub fdiv num_arith nsub nopp nadd of_int].
  rewrite ndiv_fin by assumption.
  replace ((v + - v) / v) with 0 by (field; assumption).
  rewrite py_max_fin, (Rmax_left 0 0) by lra.
  unfold with_avdd, expanding_mean.
  cbn [map fst snd expanding_mean_from observed fisnan fisinf num_arith nisnan nisinf orb negb fadd nadd Nat.leb
       fdiv of_int combine].
  rewrite (ndiv_fin _ _ (count_nonzero 0)).
  replace ((0 + 0) / IZR (Z.of_nat 1)) with 0 by (simpl; lra).
  reflexivity.
Qed.

Lemma trailing_single_window (df : series num) (d : date) (v : R) (n : Z) (k : nat) :
  (0 < n)%Z ->
  length df = (k * Z.to_nat n)%nat ->
  v <> 0 ->
  exists summaries,
    calculate_draw_down (df ++ [(d, Fin v)]) n false
    = Returns (WindowFrame (summaries ++ [(Fin 0, Fin 0)]))
    /\ length summaries = k.
Proof.
  intros Hn Hlen Hv.
  destruct (get_slices_snoc df (d, Fin v) n k Hn Hlen) as (slices & _ & Hk & Hall & Es).
  assert (Hbody : Forall (fun t => exists u,
                     (df_temp <- get_full_period_dd t ;; last_summary df_temp)
                     = Returns u) slices).
  { eapply Forall_impl; [|exact Hall]. intros sl. apply window_summary_returns. }
  destruct (for_each_returns _ slices Hbody) as (us & Eus & Hlus).
  exists us. split; [|congruence].
  unfold calculate_draw_down. rewrite Es. cbn [bind].
  rewrite for_each_app, Eus. cbn [bind for_each].
  rewrite (single_row_drawdown d v Hv). cbn [bind last_summary rev app row_mdd row_avdd].
  destruct us; reflexivity.
Qed.

(** ** Indexes along the Sharpe pipeline *)

Section SharpeIndex.
Context {A : Type} `{Arith A}.

Lemma date_eqb_eq (a b : date) : date_eqb a b = true <-> a = b.
Proof.
  unfold date_eqb. destruct a as [y m d], b as [y' m' d']. cbn [year month day].
  rewrite !andb_true_iff, !Z.eqb_eq. split.
  - intros [[-> ->] ->]. reflexivity.
  - intro E. injection E as -> -> ->. auto.
Qed.

Lemma loc_in_index (d : date) (s : series A) :
  In d (index s) -> exists v, loc d s = Some v.
Proof.
  induction s as [|[d' v] s IH]; simpl; [contradiction|].
  intros [E | Hin].
  - subst d'. rewrite (proj2 (date_eqb_eq d d) eq_refl). now exists v.
  - destruct (date_eqb d d'); [now exists v | now apply IH].
Qed.

Lemma index_reindex (idx : list date) (s : series A) : index (reindex idx s) = idx.
Proof. unfold index, reindex. rewrite map_map. cbn [fst]. apply map_id. Qed.

Lemma index_ffill_from (s : series A) :
  forall last, index (ffill_from last s) = index s.
Proof.
  induction s as [|[d v] s IH]; intro last; [reflexivity|].
  cbn [ffill_from]. destruct (fisnan v); cbn [index map fst]; f_equal; apply IH.
Qed.

Lemma index_bfill (s : series A) : index (bfill s) = index s.
Proof.
  unfold bfill, ffill, index.
  rewrite map_rev. fold (index (ffill_from None (rev s))).
  rewrite index_ffill_from. unfold index. now rewrite map_rev, rev_involutive.
Qed.

Lemma index_pct_change_from (s : series A) :
  forall prev, index (pct_change_from prev s) = index s.
Proof.
  induction s as [|[d v] s IH]; intro prev; [reflexivity|].
  cbn [pct_change_from index map fst]. f_equal. apply IH.
Qed.

Lemma index_df_sharpe_of (start_date end_date : date) (df_index : series A) :
  index (df_sharpe_of start_date end_date df_index)
  = tl (index (loc_slice start_date end_date df_index)).
Proof.
  unfold df_sharpe_of, scale, fillna.
  destruct (loc_slice start_date end_date df_index) as [|[d v] s]; [reflexivity|].
  cbn [pct_change map tl index fst].
  unfold index. rewrite !map_map. cbn [fst].
  apply (index_pct_change_from s v).
Qed.

Lemma index_df_risk_free_of (quotes : series A) (start_date end_date : date)
    (df_index : series A) :
  index (df_risk_free_of quotes start_date end_date df_index)
  = index (loc_slice start_date end_date df_index).
Proof.
  unfold df_risk_free_of, ffill.
  now rewrite index_bfill, index_ffill_from, index_reindex.
Qed.

(** ** Calendar buckets *)

Lemma groupby_incl (freq : string) (s : series A) :
  Forall (fun g => incl (snd g) s) (groupby freq s).
Proof.
  unfold groupby.
  destruct (map (fun row => period_number freq (fst row)) s) as [|k0 ks];
    [constructor|].
  cbv zeta. rewrite Forall_map. apply Forall_forall. intros k _. cbn [snd].
  intros row Hrow. apply filter_In in Hrow. exact (proj1 Hrow).
Qed.

Lemma risk_free_at_last_returns (df_risk_free x : series A) :
  x <> [] ->
  incl (index x) (index df_risk_free) ->
  exists r, risk_free_at_last df_risk_free x = Returns r.
Proof.
  intros Hne Hincl. unfold risk_free_at_last.
  destruct (rev x) as [|[d v] rest] eqn:E.
  - apply (f_equal (@rev _)) in E. rewrite rev_involutive in E. now subst x.
  - assert (Hd : In d (index x)).
    { unfold index. apply in_map_iff. exists (d, v). split; [reflexivity|].
      apply in_rev. rewrite E. now left. }
    destruct (loc_in_index d df_risk_free (Hincl d Hd)) as [r ->].
    now exists r.
Qed.

Lemma for_each_Forall2 {T U : Type} (P : T -> U -> Prop)
    (body : T -> outcome U) (l : list T) :
  Forall (fun t => exists u, body t = Returns u /\ P t u) l ->
  exists us, for_each body l = Returns us /\ Forall2 P l us.
Proof.
  induction 1 as [|t l (u & Hu & HP) _ (us & IH & HF)]; simpl.
  - exists []. split; [reflexivity | constructor].
  - rewrite Hu, IH. exists (u :: us). split; [reflexivity | now constructor].
Qed.

End SharpeIndex.

(** ** Buckets of one observation *)

Lemma ndiv_nan_r (x : num) : ndiv x NaN = NaN.
Proof. now destruct x. Qed.

Lemma std_single (v : num) : std [v] = NaN.
Proof. unfold std, dropna. cbn [filter]. now destruct (negb (fisnan v)). Qed.

Lemma single_observation_bucket (df_risk_free x : series num) (r : num) :
  length x = 1%nat ->
  risk_free_at_last df_risk_free x = Returns r ->
  annualized_daily df_risk_free x = Returns NaN
  /\ monthly_sharpe_from_daily df_risk_free x = Returns NaN.
Proof.
  intros Hlen Hr. destruct x as [|[d v] [|? ?]]; try discriminate.
  unfold annualized_daily, monthly_sharpe_from_daily. rewrite Hr.
  cbn [bind values map snd]. rewrite std_single.
  cbn [fmul fdiv num_arith nmul]. now rewrite !ndiv_nan_r.
Qed.

Lemma get_sharpe_ratio_periodic {A : Type} `{Arith A} (quotes : series A)
    (start_date end_date : date) (df_index : series A) (freq : string) :
  valid_freq freq = true ->
  get_sharpe_ratio quotes start_date end_date df_index freq false
  = (rows <- for_each
               (fun g =>
                  v <- (if String.eqb freq "YE"
                        then annualized_daily
                               (df_risk_free_of quotes start_date end_date df_index)
                               (snd g)
                        else monthly_sharpe_from_daily
                               (df_risk_free_of quotes start_date end_date df_index)
                               (snd g)) ;;
                  Returns (fst g, v))
               (groupby freq (df_sharpe_of start_date end_date df_index)) ;;
     Returns (PerBucket rows)).
Proof. intro Hv. unfold get_sharpe_ratio. rewrite Hv. reflexivity. Qed.

Lemma bucket_index_incl {A : Type} `{Arith A} (quotes : series A)
    (start_date end_date : date) (df_index x : series A) :
  incl x (df_sharpe_of start_date end_date df_index) ->
  incl (index x) (index (df_risk_free_of quotes start_date end_date df_index)).
Proof.
  intros Hincl d Hd. rewrite index_df_risk_free_of.
  assert (Hs : In d (index (df_sharpe_of start_date end_date df_index))).
  { unfold index in *. apply in_map_iff in Hd. destruct Hd as (row & <- & Hrow).
    apply in_map. now apply Hincl. }
  rewrite index_df_sharpe_of in Hs.
  destruct (index (loc_slice start_date end_date df_index));
    [contradiction | now right].
Qed.

Lemma periodic_sharpe_returns (quotes : series num) (start_date end_date : date)
    (df_index : series num) (freq : string) :
  valid_freq freq = true ->
  Forall (fun g => snd g <> [])
         (groupby freq (df_sharpe_of start_date end_date df_index)) ->
  exists rows,
    get_sharpe_ratio quotes start_date end_date df_index freq false
    = Returns (PerBucket rows)
    /\ Forall2 (fun g row =>
                  fst row = fst g /\ (length (snd g) = 1%nat -> snd row = NaN))
               (groupby freq (df_sharpe_of start_date end_date df_index)) rows.
Proof.
  intros Hv Hfull. rewrite (get_sharpe_ratio_periodic _ _ _ _ _ Hv).
  set (rf := df_risk_free_of quotes start_date end_date df_index).
  set (s := df_sharpe_of start_date end_date df_index) in *.
  match goal with
  | |- exists rows, (_ <- for_each ?body ?l ;; _) = _ /\ Forall2 ?P _ _ =>
      destruct (for_each_Forall2 P body l) as (us & E & HF)
  end.
  - eapply Forall_impl; [|apply (Forall_and Hfull (groupby_incl freq s))].
    intros [k x] [Hne Hincl]. cbn [fst snd] in *.
    assert (Hidx : incl (index x) (index rf))
      by now apply bucket_index_incl.
    destruct (risk_free_at_last_returns rf x Hne Hidx) as [r Hr].
    destruct (String.eqb freq "YE").
    + unfold annualized_daily at 1. rewrite Hr. cbn [bind].
      eexists. split; [reflexivity|]. split; [reflexivity|].
      intro Hlen. cbn [snd].
      destruct (single_observation_bucket rf x r Hlen Hr) as [E _].
      unfold annualized_daily in E. rewrite Hr in E. cbn [bind] in E. congruence.
    + unfold monthly_sharpe_from_daily at 1. rewrite Hr. cbn [bind].
      eexists. split; [reflexivity|]. split; [reflexivity|].
      intro Hlen. cbn [snd].
      destruct (single_observation_bucket rf x r Hlen Hr) as [_ E].
      unfold monthly_sharpe_from_daily in E. rewrite Hr in E. cbn [bind] in E.
      congruence.
  - exists us. split; [|exact HF].
    match goal with
    | |- bind ?m _ = _ => replace m with (Returns us) by (symmetry; exact E)
    end.
    reflexivity.
Qed.

(** A loop whose body, on every element, either returns or raises [e],
    and raises on one element at least, raises [e]. *)
Lemma for_each_raises {T U : Type} (e : exn) (body : T -> outcome U) (l : list T) :
  Forall (fun t => (exists u, body t = Returns u) \/ body t = Raises e) l ->
  Exists (fun t => body t = Raises e) l ->
  for_each body l = Raises e.
Proof.
  induction 1 as [|t l Ht _ IH]; intro Hex; [inversion Hex|].
  cbn [for_each]. destruct Ht as [[u Hu] | Hr].
  - rewrite Hu. cbn [bind].
    inversion Hex as [? ? Habs | ? ? Hrest]; subst; [congruence|].
    now rewrite (IH Hrest).
  - now rewrite Hr.
Qed.

(** A calendar period without observation ends the periodic computation:
    [x.index[-1]] raises IndexError on its empty bucket. *)
Lemma periodic_sharpe_empty_bucket {A : Type} `{Arith A} (quotes : series A)
    (start_date end_date : date) (df_index : series A) (freq : string) :
  valid_freq freq = true ->
  Exists (fun g => snd g = [])
         (groupby freq (df_sharpe_of start_date end_date df_index)) ->
  get_sharpe_ratio quotes start_date end_date df_index freq false
  = Raises IndexError.
Proof.
  intros Hv Hex. rewrite (get_sharpe_ratio_periodic _ _ _ _ _ Hv).
  set (rf := df_risk_free_of quotes start_date end_date df_index).
  set (s := df_sharpe_of start_date end_date df_index) in *.
  rewrite (for_each_raises IndexError); [reflexivity| |].
  - eapply Forall_impl; [|apply (groupby_incl freq s)].
    intros [k x] Hincl. cbn [fst snd] in *.
    destruct x as [|row x]; [right; now destruct (String.eqb freq "YE")|].
    left.
    assert (Hidx : incl (index (row :: x)) (index rf))
      by now apply bucket_index_incl.
    destruct (risk_free_at_last_returns rf (row :: x) ltac:(discriminate) Hidx)
      as [r Hr].
    unfold annualized_daily, monthly_sharpe_from_daily. rewrite Hr. cbn [bind].
    destruct (String.eqb freq "YE"); eexists; reflexivity.
  - eapply Exists_impl; [|exact Hex].
    intros [k x] Hx. cbn [snd] in *. subst x.
    now destruct (String.eqb freq "YE").
Qed.

(** C7 (as amended).  In periodic mode, when every calendar period from the
    first to the last return has an observation, the computation returns
    one row per period and a period with one observation gets the ratio
    NaN.  A period without observation aborts the whole computation with
    IndexError.  A trailing drawdown window with one (non-zero) observation
    gets the numbers [mdd = 0], [avdd = 0], after the summaries of the
    windows before it. *)
Theorem insufficient_data_is_local :
  (forall (quotes : series num) (start_date end_date : date)
          (df_index : series num) (freq : string),
      valid_freq freq = true ->
      (Forall (fun g => snd g <> [])
              (groupby freq (df_sharpe_of start_date end_date df_index)) ->
       exists rows,
         get_sharpe_ratio quotes start_date end_date df_index freq false
         = Returns (PerBucket rows)
         /\ Forall2 (fun g row =>
                       fst row = fst g /\ (length (snd g) = 1%nat -> snd row = NaN))
                    (groupby freq (df_sharpe_of start_date end_date df_index)) rows)
      /\ (Exists (fun g => snd g = [])
                 (groupby freq (df_sharpe_of start_date end_date df_index)) ->
          get_sharpe_ratio quotes start_date end_date df_index freq false
          = Raises IndexError))
  /\ (forall (df : series num) (d : date) (v : R) (n : Z) (k : nat),
         (0 < n)%Z ->
         length df = (k * Z.to_nat n)%nat ->
         v <> 0 ->
         exists summaries,
           calculate_draw_down (df ++ [(d, Fin v)]) n false
           = Returns (WindowFrame (summaries ++ [(Fin 0, Fin 0)]))
           /\ length summaries = k).
Proof.
  split.
  - intros quotes start_date end_date df_index freq Hv. split.
    + now apply periodic_sharpe_returns.
    + now apply periodic_sharpe_empty_bucket.
  - intros. now apply trailing_single_window.
Qed.

(** ** Evaluating the arithmetic of [num] on numerals *)

Lemma nadd_fin (a b : R) : nadd (Fin a) (Fin b) = Fin (a + b).
Proof. reflexivity. Qed.

Lemma nsub_fin (a b : R) : nsub (Fin a) (Fin b) = Fin (a - b).
Proof. reflexivity. Qed.

Lemma nmul_fin (a b : R) : nmul (Fin a) (Fin b) = Fin (a * b).
Proof. reflexivity. Qed.

Ltac num_norm :=
  repeat progress
    (cbn [fadd fsub fmul fdiv fsqrt flt fisnan fnan of_int num_arith nisnan
          map fold_left filter negb length Nat.leb fst snd combine tl
          Z.of_nat Pos.of_succ_nat Pos.succ Z.sub Z.add Z.opp Z.pos_sub
          Pos.pred_double];
     rewrite ?nadd_fin, ?nsub_fin, ?nmul_fin;
     rewrite ?ndiv_fin by lra).

Ltac fin_eq :=
  repeat first
    [ reflexivity
    | match goal with
      | |- Fin _ = Fin _ => apply (f_equal Fin); lra
      | |- (_ :: _) = (_ :: _) => f_equal
      | |- (_, _) = (_, _) => f_equal
      end ].

Lemma sqrt_lower (a x : R) : 0 <= a -> a * a < x -> a < sqrt x.
Proof.
  intros Ha Hx. apply Rle_lt_trans with (sqrt (a * a)).
  - rewrite sqrt_square by assumption. apply Rle_refl.
  - apply sqrt_lt_1_alt. split; [apply Rmult_le_pos; assumption | exact Hx].
Qed.

Lemma sqrt_upper (a x : R) : 0 <= x -> 0 <= a -> x < a * a -> sqrt x < a.
Proof.
  intros Hx Ha Hlt. apply Rlt_le_trans with (sqrt (a * a)).
  - apply sqrt_lt_1_alt. split; assumption.
  - rewrite sqrt_square by assumption. apply Rle_refl.
Qed.

Lemma lt_div (x y z : R) : 0 < z -> x * z < y -> x < y / z.
Proof.
  intros Hz H. apply Rmult_lt_reg_r with z; [assumption|].
  unfold Rdiv. rewrite Rmult_assoc, Rinv_l by lra. lra.
Qed.

Lemma div_lt (x y z : R) : 0 < z -> y < x * z -> y / z < x.
Proof.
  intros Hz H. apply Rmult_lt_reg_r with z; [assumption|].
  unfold Rdiv. rewrite Rmult_assoc, Rinv_l by lra. lra.
Qed.

(** ** The Sharpe scenario *)

Lemma scenario_df_sharpe :
  df_sharpe_of (mkdate 2024 1 1) (mkdate 2024 1 4) (fin_series sharpe_scenario)
  = combine (tl sharpe_dates) scenario_returns.
Proof.
  unfold df_sharpe_of.
  change (loc_slice (mkdate 2024 1 1) (mkdate 2024 1 4) (fin_series sharpe_scenario))
    with (fin_series sharpe_scenario).
  unfold sharpe_scenario, sharpe_dates, scenario_returns, fillna, scale, fin_series.
  cbn [pct_change pct_change_from combine map fst snd].
  num_norm. fin_eq.
Qed.

Lemma scenario_df_risk_free :
  df_risk_free_of zero_quotes (mkdate 2024 1 1) (mkdate 2024 1 4)
    (fin_series sharpe_scenario) = zero_quotes.
Proof. reflexivity. Qed.

Lemma scenario_compound_return : compound_return scenario_returns = Fin 20.
Proof. unfold compound_return, prod, scenario_returns, dropna. num_norm. fin_eq. Qed.

Lemma scenario_std : std scenario_returns = Fin (sqrt (1732900 / 17787)).
Proof.
  unfold std, scenario_returns, np_sum, count, dropna. num_norm.
  rewrite nsqrt_fin by lra. do 2 apply f_equal. lra.
Qed.

Lemma scenario_mean : mean scenario_returns = Fin (1520 / 231).
Proof. unfold mean, scenario_returns, np_sum, count, dropna. num_norm. fin_eq. Qed.

Lemma scenario_sqrt_bounds :
  9.87 < sqrt (1732900 / 17787) < 9.88
  /\ 1.732 < sqrt 3 < 1.7321
  /\ 19 < sqrt 365.
Proof.
  repeat split;
    first [ apply sqrt_lower; lra | apply sqrt_upper; lra ].
Qed.

Lemma scenario_yearly_formula :
  fdiv (fsub (compound_return scenario_returns) (Fin 0))
       (fmul (std scenario_returns) (fsqrt (count scenario_returns)))
  = Fin (20 / (sqrt (1732900 / 17787) * sqrt 3)).
Proof.
  destruct scenario_sqrt_bounds as ((Hs & _) & (Ht & _) & _).
  rewrite scenario_compound_return, scenario_std.
  unfold count, scenario_returns. num_norm.
  rewrite nsqrt_fin by lra. num_norm.
  rewrite ndiv_fin by (apply Rgt_not_eq; apply Rmult_lt_0_compat; lra).
  apply f_equal. f_equal. lra.
Qed.

Lemma scenario_yearly_sharpe :
  get_sharpe_ratio zero_quotes (mkdate 2024 1 1) (mkdate 2024 1 4)
    (fin_series sharpe_scenario) "YE" false
  = Returns (PerBucket
               [(YearEnd 2024, Fin (20 / (sqrt (1732900 / 17787) * sqrt 3)))]).
Proof.
  rewrite get_sharpe_ratio_periodic by reflexivity.
  rewrite scenario_df_sharpe, scenario_df_risk_free.
  change (groupby "YE" (combine (tl sharpe_dates) scenario_returns))
    with [(YearEnd 2024, combine (tl sharpe_dates) scenario_returns)].
  change (String.eqb "YE" "YE") with true.
  cbn [for_each bind fst snd]. unfold annualized_daily.
  change (risk_free_at_last zero_quotes (combine (tl sharpe_dates) scenario_returns))
    with (Returns (Fin 0)).
  change (values (combine (tl sharpe_dates) scenario_returns)) with scenario_returns.
  cbn [bind]. rewrite scenario_yearly_formula. reflexivity.
Qed.

Lemma scenario_spec_formula :
  spec_scenario_sharpe scenario_returns
  = Fin (1520 / 231 / sqrt (1732900 / 17787) * sqrt 365).
Proof.
  destruct scenario_sqrt_bounds as ((Hs & _) & _ & H365).
  unfold spec_scenario_sharpe. rewrite scenario_mean, scenario_std.
  num_norm. rewrite nsqrt_fin by lra. num_norm. reflexivity.
Qed.

Lemma scenario_values_apart :
  1.16 < 20 / (sqrt (1732900 / 17787) * sqrt 3) < 1.18
  /\ 12 < 1520 / 231 / sqrt (1732900 / 17787) * sqrt 365.
Proof.
  destruct scenario_sqrt_bounds as ((Hs1 & Hs2) & (Ht1 & Ht2) & H365).
  set (s := sqrt (1732900 / 17787)) in *. set (t := sqrt 3) in *.
  set (u := sqrt 365) in *.
  assert (Hst : 0 < s * t) by (apply Rmult_lt_0_compat; lra).
  assert (Hlo : 9.87 * 1.732 < s * t) by nra.
  assert (Hhi : s * t < 9.88 * 1.7321) by nra.
  split; [split|].
  - apply lt_div; [exact Hst | lra].
  - apply div_lt; [exact Hst | lra].
  - assert (Hq : 0.66 < 1520 / 231 / s) by (apply lt_div; lra).
    nra.
Qed.

(** C1 (as amended).  On the series 1000, 1100, 1050, 1200 with a risk-free
    rate of 0 the yearly mode returns one bucket, the year 2024, whose
    ratio is the yearly formula
    [(100 * (prod(1 + x/100) - 1) - risk_free) / (stdev(x) * sqrt(len(x)))]
    on the returns x = 10, -50/11, 100/7, that is 20 / (stdev(x) * sqrt 3),
    a number between 1.16 and 1.18. *)
Theorem yearly_sharpe_scenario :
  get_sharpe_ratio zero_quotes (mkdate 2024 1 1) (mkdate 2024 1 4)
    (fin_series sharpe_scenario) "YE" false
  = Returns (PerBucket
               [(YearEnd 2024, Fin (20 / (sqrt (1732900 / 17787) * sqrt 3)))])
  /\ values (df_sharpe_of (mkdate 2024 1 1) (mkdate 2024 1 4)
               (fin_series sharpe_scenario)) = scenario_returns
  /\ fdiv (fsub (compound_return scenario_returns) (Fin 0))
          (fmul (std scenario_returns) (fsqrt (count scenario_returns)))
     = Fin (20 / (sqrt (1732900 / 17787) * sqrt 3))
  /\ 1.16 < 20 / (sqrt (1732900 / 17787) * sqrt 3) < 1.18.
Proof.
  split; [exact scenario_yearly_sharpe|].
  split; [now rewrite scenario_df_sharpe|].
  split; [exact scenario_yearly_formula | exact (proj1 scenario_values_apart)].
Qed.

(** C1 as stated fails: [mean / stdev * sqrt 365] of the same returns is
    above 12, and the yearly ratio is below 1.18. *)
Lemma yearly_sharpe_is_not_the_daily_formula :
  get_sharpe_ratio zero_quotes (mkdate 2024 1 1) (mkdate 2024 1 4)
    (fin_series sharpe_scenario) "YE" false
  <> Returns (PerBucket [(YearEnd 2024, spec_scenario_sharpe scenario_returns)]).
Proof.
  rewrite scenario_yearly_sharpe, scenario_spec_formula.
  destruct scenario_values_apart as ((_ & Hhi) & Hlo).
  intro E. injection E as E. lra.
Qed.

(** The year-end series and the series with a month without observation
    have the same values, so the same returns. *)
Lemma year_end_df_sharpe :
  df_sharpe_of (mkdate 2023 12 27) (mkdate 2024 1 2) (fin_series year_end_scenario)
  = combine (tl year_end_dates) [Fin 10; Fin (-10); Fin (100 / 11)].
Proof.
  unfold df_sharpe_of.
  change (loc_slice (mkdate 2023 12 27) (mkdate 2024 1 2)
            (fin_series year_end_scenario))
    with (fin_series year_end_scenario).
  unfold year_end_scenario, year_end_dates, fillna, scale, fin_series.
  cbn [pct_change pct_change_from combine map fst snd].
  num_norm. fin_eq.
Qed.

Lemma month_gap_df_sharpe :
  df_sharpe_of (mkdate 2024 1 30) (mkdate 2024 3 4) (fin_series month_gap_scenario)
  = combine (tl month_gap_dates) [Fin 10; Fin (-10); Fin (100 / 11)].
Proof.
  unfold df_sharpe_of.
  change (loc_slice (mkdate 2024 1 30) (mkdate 2024 3 4)
            (fin_series month_gap_scenario))
    with (fin_series month_gap_scenario).
  unfold month_gap_scenario, month_gap_dates, fillna, scale, fin_series.
  cbn [pct_change pct_change_from combine map fst snd].
  num_norm. fin_eq.
Qed.

Lemma year_end_buckets :
  groupby "YE" (df_sharpe_of (mkdate 2023 12 27) (mkdate 2024 1 2)
                  (fin_series year_end_scenario))
  = [(YearEnd 2023, [(mkdate 2023 12 28, Fin 10); (mkdate 2023 12 29, Fin (-10))]);
     (YearEnd 2024, [(mkdate 2024 1 2, Fin (100 / 11))])].
Proof. rewrite year_end_df_sharpe. reflexivity. Qed.

Lemma month_gap_buckets :
  groupby "ME" (df_sharpe_of (mkdate 2024 1 30) (mkdate 2024 3 4)
                  (fin_series month_gap_scenario))
  = [(MonthEnd 2024 1, [(mkdate 2024 1 31, Fin 10)]);
     (MonthEnd 2024 2, []);
     (MonthEnd 2024 3, [(mkdate 2024 3 1, Fin (-10)); (mkdate 2024 3 4, Fin (100 / 11))])].
Proof. rewrite month_gap_df_sharpe. reflexivity. Qed.

Lemma insufficient_data_is_local_witness :
  (exists rows,
      get_sharpe_ratio zero_quotes (mkdate 2023 12 27) (mkdate 2024 1 2)
        (fin_series year_end_scenario) "YE" false
      = Returns (PerBucket rows)
      /\ Forall2 (fun g row =>
                    fst row = fst g /\ (length (snd g) = 1%nat -> snd row = NaN))
                 (groupby "YE"
                    (df_sharpe_of (mkdate 2023 12 27) (mkdate 2024 1 2)
                       (fin_series year_end_scenario)))
                 rows)
  /\ get_sharpe_ratio month_gap_quotes (mkdate 2024 1 30) (mkdate 2024 3 4)
       (fin_series month_gap_scenario) "ME" false
     = Raises IndexError
  /\ (exists summaries,
         calculate_draw_down
           (fin_series [(mkdate 2024 1 1, 100); (mkdate 2024 1 2, 90)]
            ++ [(mkdate 2024 1 3, Fin 95)]) 2 false
         = Returns (WindowFrame (summaries ++ [(Fin 0, Fin 0)]))
         /\ length summaries = 1%nat).
Proof.
  split; [|split].
  - apply (proj1 (proj1 insufficient_data_is_local zero_quotes
                   (mkdate 2023 12 27) (mkdate 2024 1 2)
                   (fin_series year_end_scenario) "YE"%string eq_refl)).
    rewrite year_end_buckets. repeat constructor; discriminate.
  - apply (proj2 (proj1 insufficient_data_is_local month_gap_quotes
                   (mkdate 2024 1 30) (mkdate 2024 3 4)
                   (fin_series month_gap_scenario) "ME"%string eq_refl)).
    rewrite month_gap_buckets. right. left. reflexivity.
  - apply (proj2 insufficient_data_is_local
             (fin_series [(mkdate 2024 1 1, 100); (mkdate 2024 1 2, 90)])
             (mkdate 2024 1 3) 95 2%Z 1%nat); [lia | reflexivity | lra].
Defined.

(** C7 as stated fails twice.  A month without observation between two
    months with observations is a bucket with fewer than two observations,
    and the whole periodic computation is aborted with IndexError: the
    caller gets no row at all, not even for January, whose one observation
    alone would have given NaN.  And with three observations and drawdown
    windows of two, the trailing window has one observation and its summary
    is the pair of numbers (0, 0), not an undefined marker. *)
Lemma short_bucket_aborts_short_window_is_numeric :
  (groupby "ME" (df_sharpe_of (mkdate 2024 1 30) (mkdate 2024 3 4)
                   (fin_series month_gap_scenario))
   = [(MonthEnd 2024 1, [(mkdate 2024 1 31, Fin 10)]);
      (MonthEnd 2024 2, []);
      (MonthEnd 2024 3, [(mkdate 2024 3 1, Fin (-10));
                         (mkdate 2024 3 4, Fin (100 / 11))])]
   /\ get_sharpe_ratio month_gap_quotes (mkdate 2024 1 30) (mkdate 2024 3 4)
        (fin_series month_gap_scenario) "ME" false
      = Raises IndexError)
  /\ (exists summaries last,
         calculate_draw_down
           (fin_series [(mkdate 2024 1 1, 100); (mkdate 2024 1 2, 90);
                        (mkdate 2024 1 3, 95)]) 2 false
         = Returns (WindowFrame (summaries ++ [last]))
         /\ length summaries = 1%nat
         /\ last = (Fin 0, Fin 0)
         /\ fisnan (fst last) = false
         /\ fisnan (snd last) = false).
Proof.
  split.
  - split; [exact month_gap_buckets|].
    apply periodic_sharpe_empty_bucket; [reflexivity|].
    rewrite month_gap_buckets. right. left. reflexivity.
  - destruct (trailing_single_window
                (fin_series [(mkdate 2024 1 1, 100); (mkdate 2024 1 2, 90)])
                (mkdate 2024 1 3) 95 2%Z 1%nat) as (summaries & E & Hlen);
      [lia | reflexivity | lra |].
    exists summaries, (Fin 0, Fin 0).
    split; [exact E|]. repeat split. exact Hlen.
Qed.

(** The year-end series in yearly mode: the bucket of 2023 has two returns
    and a number for its ratio, the bucket of 2024 has one return and
    NaN. *)
Lemma year_end_scenario_sharpe :
  get_sharpe_ratio zero_quotes (mkdate 2023 12 27) (mkdate 2024 1 2)
    (fin_series year_end_scenario) "YE" false
  = Returns (PerBucket [(YearEnd 2023, Fin (-1 / (sqrt 200 * sqrt 2)));
                        (YearEnd 2024, NaN)]).
Proof.
  rewrite get_sharpe_ratio_periodic by reflexivity.
  change (df_risk_free_of zero_quotes (mkdate 2023 12 27) (mkdate 2024 1 2)
            (fin_series year_end_scenario))
    with (map (fun d => (d, Fin 0)) year_end_dates).
  rewrite year_end_buckets.
  change (String.eqb "YE" "YE") with true.
  cbn [for_each fst snd].
  rewrite (proj1 (single_observation_bucket
                    (map (fun d => (d, Fin 0)) year_end_dates)
                    [(mkdate 2024 1 2, Fin (100 / 11))] (Fin 0) eq_refl eq_refl)).
  unfold annualized_daily.
  change (risk_free_at_last (map (fun d => (d, Fin 0)) year_end_dates)
            [(mkdate 2023 12 28, Fin 10); (mkdate 2023 12 29, Fin (-10))])
    with (Returns (Fin 0)).
  cbn [bind values map snd].
  assert (Hsqrt : 0 < sqrt 200 /\ 0 < sqrt 2).
  { split; apply sqrt_lt_R0; lra. }
  unfold compound_return, prod, std, np_sum, count, dropna. num_norm.
  rewrite (nsqrt_fin 2) by lra.
  match goal with
  | |- context [nsqrt (Fin ?e)] => replace e with 200 by lra
  end.
  rewrite nsqrt_fin by lra. num_norm.
  rewrite ndiv_fin by (apply Rgt_not_eq; apply Rmult_lt_0_compat; lra).
  match goal with
  | |- context [Fin (?e / _)] => replace e with (-1) by lra
  end.
  reflexivity.
Qed.

(** ** The aggregator *)

Section Aggregator.
Context {A : Type} `{Arith A}.

Lemma date_leb_refl (d : date) : date_leb d d = true.
Proof.
  unfold date_leb. rewrite (proj2 (date_eqb_eq d d) eq_refl). apply orb_true_r.
Qed.

Lemma date_lt_leb (a b : date) : date_lt a b -> date_leb a b = true.
Proof. unfold date_lt, date_leb. now intros ->. Qed.

Lemma sorted_after_first (d : date) (l : list date) :
  StronglySorted date_lt (d :: l) ->
  Forall (fun x => date_leb d x = true) (d :: l).
Proof.
  intro Hs. apply StronglySorted_inv in Hs. destruct Hs as [_ Hall].
  constructor; [apply date_leb_refl|].
  eapply Forall_impl; [|exact Hall]. intros x. apply date_lt_leb.
Qed.

Lemma sorted_before_last (l : list date) (t : date) :
  StronglySorted date_lt (l ++ [t]) ->
  Forall (fun x => date_leb x t = true) (l ++ [t]).
Proof.
  induction l as [|a l IH]; intro Hs; cbn [app] in *.
  - constructor; [apply date_leb_refl | constructor].
  - apply StronglySorted_inv in Hs. destruct Hs as [Hs Hall].
    constructor; [|now apply IH].
    apply date_lt_leb. rewrite Forall_forall in Hall. apply Hall.
    apply in_or_app. right. now left.
Qed.

Lemma filter_all {T : Type} (f : T -> bool) (l : list T) :
  Forall (fun x => f x = true) l -> filter f l = l.
Proof.
  induction 1 as [|x l Hx _ IH]; [reflexivity|].
  cbn [filter]. now rewrite Hx, IH.
Qed.

Lemma loc_slice_full_span (df l' : series A) (first_row last_row : date * A) :
  hd_error df = Some first_row ->
  df = l' ++ [last_row] ->
  StronglySorted date_lt (index df) ->
  loc_slice (fst first_row) (fst last_row) df = df.
Proof.
  intros Hhd Hlast Hsorted. unfold loc_slice. apply filter_all.
  assert (H1 : Forall (fun x => date_leb (fst first_row) x = true) (index df)).
  { destruct df as [|r df]; [discriminate|]. injection Hhd as ->.
    now apply sorted_after_first. }
  assert (H2 : Forall (fun x => date_leb x (fst last_row) = true) (index df)).
  { rewrite Hlast in *. unfold index in *. rewrite map_app in *.
    now apply sorted_before_last. }
  unfold index in *. rewrite Forall_map in H1, H2.
  rewrite Forall_forall in *. intros row Hrow.
  now rewrite (H1 row Hrow), (H2 row Hrow).
Qed.

Lemma iloc_last_snoc {T : Type} (l : list T) (t : T) :
  iloc_last (l ++ [t]) = Returns t.
Proof. unfold iloc_last. now rewrite rev_unit. Qed.

End Aggregator.

(** C9.  On every non-empty series (its dates increasing, as in every time
    series of the data model) the aggregator returns a record whose raw
    value is the last value of the series, whose return is
    [raw_value / base - 1], whose Sharpe ratio is the full-period ratio
    asked for the dates of the first and the last row, a span that cuts no
    row of the series, and whose maximum drawdown is the [mdd] of the last
    row of the full-period drawdown. *)
Theorem performance_stats_record :
  forall (A : Type) (arith : Arith A) (quotes df : series A) (base : A),
    df <> [] ->
    StronglySorted date_lt (index df) ->
    exists first_row last_row sh rows last_dd,
      hd_error df = Some first_row
      /\ iloc_last df = Returns last_row
      /\ loc_slice (fst first_row) (fst last_row) df = df
      /\ get_sharpe_ratio quotes (fst first_row) (fst last_row) df "YE" true
         = Returns (Scalar sh)
      /\ get_full_period_dd df = Returns rows
      /\ iloc_last rows = Returns last_dd
      /\ calculate_model_performance_stats quotes df base
         = Returns (mkstats (snd last_row)
                            (fsub (fdiv (snd last_row) base) (of_int 1))
                            (Scalar sh)
                            (row_mdd last_dd)).
Proof.
  intros A arith quotes df base Hne Hsorted.
  destruct (iloc_last_returns df Hne) as (last_row & l' & Hsnoc & Hlast).
  destruct (get_full_period_dd_returns df Hne) as (rows & Erows & Hlen).
  assert (Hrows : rows <> []).
  { intro; subst rows. destruct df; [contradiction | discriminate]. }
  destruct (iloc_last_returns rows Hrows) as (last_dd & rows' & _ & Hlast_dd).
  destruct df as [|first_row df_tl] eqn:Edf; [contradiction|]. rewrite <- Edf in *.
  assert (Hhd : hd_error df = Some first_row) by now rewrite Edf.
  exists first_row, last_row.
  eexists. exists rows, last_dd.
  split; [exact Hhd|]. split; [exact Hlast|].
  split; [now apply (loc_slice_full_span df l')|].
  split; [reflexivity|].
  split; [exact Erows|]. split; [exact Hlast_dd|].
  unfold calculate_model_performance_stats.
  assert (Hv : iloc_last (values df) = Returns (snd last_row)).
  { rewrite Hsnoc. unfold values. rewrite map_app. apply iloc_last_snoc. }
  assert (Hi : iloc_last (index df) = Returns (fst last_row)).
  { rewrite Hsnoc. unfold index. rewrite map_app. apply iloc_last_snoc. }
  assert (Hf : iloc_first (index df) = Returns (fst first_row)) by now rewrite Edf.
  rewrite Hv, Hf, Hi. cbn [bind].
  unfold calculate_draw_down. rewrite Erows. cbn [bind full_frame_mdd].
  rewrite Hlast_dd. reflexivity.
Qed.

Lemma performance_stats_record_witness :
  exists first_row last_row sh rows last_dd,
    hd_error (fin_series sharpe_scenario) = Some first_row
    /\ iloc_last (fin_series sharpe_scenario) = Returns last_row
    /\ loc_slice (fst first_row) (fst last_row) (fin_series sharpe_scenario)
       = fin_series sharpe_scenario
    /\ get_sharpe_ratio zero_quotes (fst first_row) (fst last_row)
         (fin_series sharpe_scenario) "YE" true
       = Returns (Scalar sh)
    /\ get_full_period_dd (fin_series sharpe_scenario) = Returns rows
    /\ iloc_last rows = Returns last_dd
    /\ calculate_model_performance_stats zero_quotes (fin_series sharpe_scenario)
         (Fin 1000)
       = Returns (mkstats (snd last_row)
                          (fsub (fdiv (snd last_row) (Fin 1000)) (of_int 1))
                          (Scalar sh)
                          (row_mdd last_dd)).
Proof.
  apply (performance_stats_record num num_arith zero_quotes
           (fin_series sharpe_scenario) (Fin 1000)).
  - discriminate.
  - repeat constructor.
Defined.

Lemma get_sharpe_ratio_full_period {A : Type} `{Arith A} (quotes : series A)
    (start_date end_date : date) (df_index : series A) (freq : string) :
  get_sharpe_ratio quotes start_date end_date df_index freq true
  = let excess :=
      values (series_sub (df_sharpe_of start_date end_date df_index)
                (map (fun row => (fst row, fdiv (snd row) (of_int 365)))
                     (df_risk_free_of quotes start_date end_date df_index))) in
    Returns (Scalar (fmul (fdiv (mean excess) (std excess)) (fsqrt (of_int 365)))).
Proof. reflexivity. Qed.

(** What the scenario of C1 describes is the full-period ratio of the
    series. *)
Lemma scenario_full_period_sharpe :
  get_sharpe_ratio zero_quotes (mkdate 2024 1 1) (mkdate 2024 1 4)
    (fin_series sharpe_scenario) "YE" true
  = Returns (Scalar (Fin (1520 / 231 / sqrt (1732900 / 17787) * sqrt 365))).
Proof.
  destruct scenario_sqrt_bounds as ((Hs & _) & _ & H365).
  rewrite get_sharpe_ratio_full_period.
  rewrite scenario_df_sharpe, scenario_df_risk_free.
  change (values
            (series_sub (combine (tl sharpe_dates) scenario_returns)
               (map (fun row => (fst row, fdiv (snd row) (of_int 365))) zero_quotes)))
    with [NaN;
          nsub (Fin 10) (ndiv (Fin 0) (Fin 365));
          nsub (Fin (-50 / 11)) (ndiv (Fin 0) (Fin 365));
          nsub (Fin (100 / 7)) (ndiv (Fin 0) (Fin 365))].
  cbv zeta. unfold mean, std, np_sum, count, dropna. num_norm.
  rewrite (nsqrt_fin 365) by lra.
  match goal with
  | |- context [nsqrt (Fin ?e)] => replace e with (1732900 / 17787) by lra
  end.
  rewrite nsqrt_fin by lra. num_norm.
  match goal with
  | |- context [Fin (?e / _ * _)] => replace e with (1520 / 231) by lra
  end.
  reflexivity.
Qed.

(** ** Runs on binary64

    The same definitions evaluated on the numbers of the interpreter. *)

Section Binary64.
Import PrimFloat.

Example drawdown_scenario_binary64 :
  exists rows,
    get_full_period_dd drawdown_scenario64 = Returns rows
    /\ map (@row_dd float) rows = [0; f0_1; f0_05; f0_2; 0]%float
    /\ map (@row_mdd float) rows = [0; f0_1; f0_1; f0_2; f0_2]%float.
Proof. eexists. split; [reflexivity|]. split; vm_compute; reflexivity. Qed.

Example drawdown_above_1_binary64 :
  exists rows,
    get_full_period_dd [(mkdate 2024 1 1, 1%float); (mkdate 2024 1 2, (-1)%float)]
    = Returns rows
    /\ map (@row_mdd float) rows = [0; 2]%float.
Proof. eexists. split; [reflexivity|]. vm_compute; reflexivity. Qed.

(** C8 as stated fails on the numbers of the interpreter.  On the
    strictly positive series 100, 90, 95 the [dd] column holds the binary64
    numbers 0, 0.1 and 0.05, whose exact sum is three times the number 0.05:
    their arithmetic mean is that number.  The [avdd] of the third row is
    another number, the next one above it (0.05000000000000001): three
    times its exact value is not the exact
    sum of the three drawdowns. *)
Example average_drawdown_is_rounded_binary64 :
  exists rows avdd v,
    get_full_period_dd
      [(mkdate 2024 1 1, 100%float); (mkdate 2024 1 2, 90%float);
       (mkdate 2024 1 3, 95%float)] = Returns rows
    /\ map (@row_dd float) rows = [0%float; f0_1; f0_05]
    /\ exact_sum (map (@row_dd float) rows)
       = option_map (Z.mul 3) (exact_value f0_05)
    /\ nth 2 (map (@row_avdd float) rows) nan = avdd
    /\ avdd = 0x1.999999999999bp-5%float
    /\ eqb avdd f0_05 = false
    /\ exact_value avdd = Some v
    /\ Some (3 * v)%Z <> exact_sum (map (@row_dd float) rows).
Proof.
  do 3 eexists. split; [reflexivity|].
  split; [vm_compute; reflexivity|].
  split; [vm_compute; reflexivity|].
  split; [reflexivity|].
  split; [vm_compute; reflexivity|].
  split; [vm_compute; reflexivity|].
  split; [vm_compute; reflexivity|].
  vm_compute. discriminate.
Qed.

(** On binary64 a drawdown of a strictly positive series can be 1: after
    the peak 1e17 the value 1 is lost in the rounding of [peak - value]. *)
Example drawdown_reaches_1_binary64 :
  exists rows,
    get_full_period_dd [(mkdate 2024 1 1, 1e17%float); (mkdate 2024 1 2, 1%float)]
    = Returns rows
    /\ map (@row_dd float) rows = [0; 1]%float
    /\ map (@row_mdd float) rows = [0; 1]%float.
Proof. eexists. split; [reflexivity|]. split; vm_compute; reflexivity. Qed.

Example one_window_binary64 :
  exists rows last,
    get_full_period_dd drawdown_scenario64 = Returns rows
    /\ iloc_last rows = Returns last
    /\ calculate_draw_down drawdown_scenario64 5 false
       = Returns (WindowFrame [(row_mdd last, row_avdd last)]).
Proof. do 2 eexists. repeat split; vm_compute; reflexivity. Qed.

Example trailing_window_binary64 :
  calculate_draw_down
    [(mkdate 2024 1 1, 100%float); (mkdate 2024 1 2, 90%float);
     (mkdate 2024 1 3, 95%float)] 2 false
  = Returns (WindowFrame [(f0_1, f0_05); (0, 0)]%float).
Proof. vm_compute. reflexivity. Qed.

Example yearly_sharpe_binary64 :
  exists v w,
    get_sharpe_ratio zero_quotes64 (mkdate 2024 1 1) (mkdate 2024 1 4)
      sharpe_scenario64 "YE" false
    = Returns (PerBucket [(YearEnd 2024, v)])
    /\ between 1 2 v = true
    /\ get_sharpe_ratio zero_quotes64 (mkdate 2024 1 1) (mkdate 2024 1 4)
         sharpe_scenario64 "YE" true
       = Returns (Scalar w)
    /\ w = spec_scenario_sharpe
             (values (df_sharpe_of (mkdate 2024 1 1) (mkdate 2024 1 4)
                        sharpe_scenario64))
    /\ between 12 13 w = true.
Proof. do 2 eexists. repeat split; vm_compute; reflexivity. Qed.

Example year_end_sharpe_binary64 :
  exists v,
    get_sharpe_ratio zero_quotes64 (mkdate 2023 12 27) (mkdate 2024 1 2)
      year_end_scenario64 "YE" false
    = Returns (PerBucket [(YearEnd 2023, v); (YearEnd 2024, nan)])
    /\ between (-1) 0 v = true.
Proof. eexists. split; vm_compute; reflexivity. Qed.

Example month_gap_binary64 :
  get_sharpe_ratio month_gap_quotes64 (mkdate 2024 1 30) (mkdate 2024 3 4)
    month_gap_scenario64 "ME" false
  = Raises IndexError.
Proof. vm_compute. reflexivity. Qed.

Example single_asset_binary64 :
  calculate_portfolio_std [1%float] [2%float] [[0x1p-2%float]] = Returns 1%float.
Proof. vm_compute. reflexivity. Qed.

Example negative_variance_binary64 :
  calculate_portfolio_std [1%float] [1%float] [[(-1)%float]] = Returns nan.
Proof. vm_compute. reflexivity. Qed.

(** Two weights for one asset: [np.dot] refuses the shapes.  One standard
    deviation for two assets: the 1 by 1 outer product is broadcast over
    the 2 by 2 correlation matrix. *)
Example shapes_binary64 :
  calculate_portfolio_std [1; 1]%float [1%float] [[(-1)%float]]
  = Raises ValueError
  /\ calculate_portfolio_std [1; 1]%float [1; 1]%float [[1; 0]; [0]]%float
     = Raises ValueError
  /\ calculate_portfolio_std [0x1p-1; 0x1p-1]%float [2%float] [[1; 0]; [0; 1]]%float
     = Returns (sqrt 2)%float.
Proof. repeat split; vm_compute; reflexivity. Qed.

(** The weight test on the rounded running sum: 0.1, 0.2, 0.3, 0.3, 0.1 add
    up to 1.0000000000000002 and are refused; ten weights of 0.1 add up to
    0.9999999999999999 and are accepted. *)
Example weight_test_binary64 :
  prepare_portfolio_df sharpe_dates (fun _ => sharpe_scenario64)
    [("A"%string, f0_1); ("B"%string, f0_2); ("C"%string, 0x1.3333333333333p-2);
     ("D"%string, 0x1.3333333333333p-2); ("E"%string, f0_1)]%float 1000%float
  = Raises ValueError
  /\ total_abs_weight
       [("A"%string, f0_1); ("B"%string, f0_2); ("C"%string, 0x1.3333333333333p-2);
        ("D"%string, 0x1.3333333333333p-2); ("E"%string, f0_1)]%float
     = 0x1.0000000000001p+0%float
  /\ total_abs_weight (map (fun k => (String.string_of_list_ascii [k], f0_1))
                           (String.list_ascii_of_string "ABCDEFGHIJ"))
     = 0x1.fffffffffffffp-1%float
  /\ flt 1%float
       (total_abs_weight (map (fun k => (String.string_of_list_ascii [k], f0_1))
                              (String.list_ascii_of_string "ABCDEFGHIJ")))
     = false.
Proof. repeat split; vm_compute; reflexivity. Qed.

Example performance_stats_binary64 :
  exists r s,
    calculate_model_performance_stats zero_quotes64 sharpe_scenario64 1000%float
    = Returns (mkstats 1200%float r (Scalar s) (50 / 1100)%float)
    /\ between 12 13 s = true.
Proof. do 2 eexists. split; vm_compute; reflexivity. Qed.

End Binary64.

(** * Further properties of the drawdown calculator *)

Lemma Forall_map_combine {X Y Z : Type} (F : X * Y -> Z) (P : Z -> Prop)
    (l1 : list X) (l2 : list Y) :
  Forall2 (fun x y => P (F (x, y))) l1 l2 -> Forall P (map F (combine l1 l2)).
Proof. induction 1; simpl; constructor; assumption. Qed.

Lemma div_le_bound (a b m : R) : 0 < b -> 0 <= a -> a <= b * m -> 0 <= a / b <= m.
Proof.
  intros Hb Ha Hle. split.
  - apply Rmult_le_pos; [assumption|]. left. now apply Rinv_0_lt_compat.
  - apply Rmult_le_reg_r with b; [assumption|].
    unfold Rdiv. rewrite Rmult_assoc, Rinv_l by lra. lra.
Qed.

Lemma positive_rows_inv (s : list (date * R)) :
  forall (peak m sum : R) (nobs : nat),
    0 < peak -> 0 <= m < 1 -> 0 <= sum <= INR nobs * m ->
    Forall (fun row => 0 < snd row) s ->
    Forall2 (fun r a => row_bounds (snd (fst r)) (snd r) a)
      (dd_loop (Fin peak) (Fin m) (fin_series s))
      (expanding_mean_from (Fin sum) nobs
         (map (fun r => snd (fst r)) (dd_loop (Fin peak) (Fin m) (fin_series s)))).
Proof.
  induction s as [|[i v] s IH]; intros peak m sum nobs Hpeak Hm Hsum Hpos;
    [constructor|].
  inversion Hpos as [|? ? Hv Hrest]; subst. simpl in Hv.
  assert (Hmax : 0 < Rmax peak v).
  { apply Rlt_le_trans with peak; [assumption | apply Rmax_l]. }
  assert (Hvmax : v <= Rmax peak v) by apply Rmax_r.
  cbn [fin_series map fst snd dd_loop].
  rewrite py_max_fin.
  cbn [fsub fdiv num_arith nsub nopp nadd].
  rewrite ndiv_fin by lra.
  rewrite py_max_fin.
  fold (fin_series s).
  set (d := (Rmax peak v + - v) / Rmax peak v).
  assert (Hd : 0 <= d < 1).
  { unfold d. split.
    - apply Rmult_le_pos; [lra|]. left; apply Rinv_0_lt_compat; lra.
    - apply div_lt; lra. }
  assert (Hm' : 0 <= Rmax m d < 1 /\ m <= Rmax m d /\ d <= Rmax m d).
  { repeat split; try apply Rmax_l; try apply Rmax_r.
    - eapply Rle_trans; [apply (proj1 Hm) | apply Rmax_l].
    - apply Rmax_lub_lt; lra. }
  destruct Hm' as (Hm1 & Hm2 & Hm3).
  cbn [expanding_mean_from observed fisnan fisinf num_arith nisnan nisinf orb negb fadd nadd Nat.leb fdiv of_int].
  rewrite (ndiv_fin _ _ (count_nonzero nobs)). rewrite <- INR_IZR_INZ.
  assert (HS : INR (S nobs) = INR nobs + 1) by apply S_INR.
  assert (Hn : 0 <= INR nobs) by apply pos_INR.
  assert (Hsum' : 0 <= sum + d <= INR (S nobs) * Rmax m d) by (rewrite HS; nra).
  constructor.
  - exists d, (Rmax m d), ((sum + d) / INR (S nobs)).
    repeat split; try lra;
      apply (div_le_bound (sum + d) (INR (S nobs)) (Rmax m d)); lra.
  - apply IH; assumption.
Qed.

(** X1.  On strictly positive values every row of the full-period drawdown
    has [0 <= dd <= mdd <= 1] and [0 <= avdd <= mdd]. *)
Theorem positive_series_row_bounds :
  forall s : list (date * R),
    s <> [] ->
    Forall (fun row => 0 < snd row) s ->
    exists rows,
      get_full_period_dd (fin_series s) = Returns rows
      /\ Forall (fun r => row_bounds (row_dd r) (row_mdd r) (row_avdd r)) rows.
Proof.
  intros s Hne Hpos. destruct s as [|[i v] s]; [contradiction|].
  eexists. split; [reflexivity|].
  unfold with_avdd, expanding_mean. apply Forall_map_combine.
  assert (Hv : 0 < v) by (inversion Hpos; assumption).
  eapply Forall2_impl;
    [|apply (positive_rows_inv ((i, v) :: s) v 0 0 0%nat Hv);
      [lra | simpl; lra | exact Hpos]].
  intros [[d dd] m] a Hb. exact Hb.
Qed.

Lemma positive_series_row_bounds_witness :
  exists rows,
    get_full_period_dd (fin_series drawdown_scenario) = Returns rows
    /\ Forall (fun r => row_bounds (row_dd r) (row_mdd r) (row_avdd r)) rows.
Proof.
  apply (positive_series_row_bounds drawdown_scenario).
  - discriminate.
  - unfold drawdown_scenario; simpl; repeat constructor; simpl; lra.
Defined.

Lemma nondecreasing_rows_inv (s : list (date * R)) :
  forall (peak sum : R) (nobs : nat),
    0 < peak -> sum = 0 ->
    StronglySorted Rle (peak :: map snd s) ->
    Forall2 (fun r a => snd (fst r) = Fin 0 /\ snd r = Fin 0 /\ a = Fin 0)
      (dd_loop (Fin peak) (Fin 0) (fin_series s))
      (expanding_mean_from (Fin sum) nobs
         (map (fun r => snd (fst r)) (dd_loop (Fin peak) (Fin 0) (fin_series s)))).
Proof.
  induction s as [|[i v] s IH]; intros peak sum nobs Hpeak Hsum Hsorted;
    [constructor|].
  cbn [map snd] in Hsorted.
  apply StronglySorted_inv in Hsorted. destruct Hsorted as [Htail Hall].
  assert (Hv : peak <= v) by (inversion Hall; assumption).
  cbn [fin_series map fst snd dd_loop].
  rewrite py_max_fin, (Rmax_right peak v) by assumption.
  cbn [fsub fdiv num_arith nsub nopp nadd].
  rewrite ndiv_fin by lra.
  replace ((v + - v) / v) with 0 by (field; lra).
  rewrite py_max_fin, (Rmax_left 0 0) by lra.
  fold (fin_series s).
  cbn [expanding_mean_from observed fisnan fisinf num_arith nisnan nisinf orb negb fadd nadd Nat.leb fdiv of_int].
  rewrite (ndiv_fin _ _ (count_nonzero nobs)).
  constructor.
  - repeat split. f_equal. subst sum. unfold Rdiv. lra.
  - apply IH; [lra | lra | exact Htail].
Qed.

(** X2.  On a strictly positive series that never falls (each value at
    least the one before) every row has [dd = 0], [mdd = 0] and
    [avdd = 0]. *)
Theorem nondecreasing_series_has_no_drawdown :
  forall s : list (date * R),
    s <> [] ->
    Forall (fun row => 0 < snd row) s ->
    StronglySorted Rle (map snd s) ->
    exists rows,
      get_full_period_dd (fin_series s) = Returns rows
      /\ length rows = length s
      /\ Forall (fun r => row_dd r = Fin 0 /\ row_mdd r = Fin 0
                          /\ row_avdd r = Fin 0) rows.
Proof.
  intros s Hne Hpos Hsorted. destruct s as [|[i v] s]; [contradiction|].
  eexists. split; [reflexivity|]. split.
  { rewrite length_with_avdd, length_dd_loop. unfold fin_series. apply length_map. }
  unfold with_avdd, expanding_mean. apply Forall_map_combine.
  assert (Hv : 0 < v) by (inversion Hpos; assumption).
  eapply Forall2_impl;
    [|apply (nondecreasing_rows_inv ((i, v) :: s) v 0 0%nat Hv eq_refl)].
  - intros [[d dd] m] a Hb. exact Hb.
  - cbn [map snd] in *. constructor; [exact Hsorted|].
    constructor; [lra|].
    apply StronglySorted_inv in Hsorted. exact (proj2 Hsorted).
Qed.

Lemma nondecreasing_series_has_no_drawdown_witness :
  exists rows,
    get_full_period_dd
      (fin_series [(mkdate 2024 1 1, 100); (mkdate 2024 1 2, 100);
                   (mkdate 2024 1 3, 120)]) = Returns rows
    /\ length rows = 3%nat
    /\ Forall (fun r => row_dd r = Fin 0 /\ row_mdd r = Fin 0
                        /\ row_avdd r = Fin 0) rows.
Proof.
  apply (nondecreasing_series_has_no_drawdown
           [(mkdate 2024 1 1, 100); (mkdate 2024 1 2, 100); (mkdate 2024 1 3, 120)]).
  - discriminate.
  - repeat constructor; simpl; lra.
  - repeat constructor; simpl; lra.
Defined.

(** X4.  In windowed mode a window of zero days ([range] refuses a zero
    step) or of a negative number of days (no chunk at all, and [pd.concat]
    refuses an empty list) raises ValueError on every series, empty or
    not. *)
Theorem nonpositive_window_raises :
  forall (A : Type) (arith : Arith A) (df : series A) (freq_days : Z),
    (freq_days <= 0)%Z ->
    calculate_draw_down df freq_days false = Raises ValueError.
Proof.
  intros A arith df n Hn. unfold calculate_draw_down, get_slices, py_range.
  destruct (Z.eqb_spec n 0); [reflexivity|].
  destruct (Z.ltb_spec n 0); [reflexivity | lia].
Qed.

Lemma nonpositive_window_raises_witness :
  calculate_draw_down (fin_series drawdown_scenario) (-60) false = Raises ValueError.
Proof.
  apply (nonpositive_window_raises num num_arith (fin_series drawdown_scenario)).
  lia.
Defined.

Lemma seq_add_start (k start len : nat) :
  seq (k + start) len = map (Nat.add k) (seq start len).
Proof.
  induction k as [|k IH]; cbn [Nat.add].
  - now rewrite map_id.
  - rewrite <- seq_shift, IH, map_map. reflexivity.
Qed.

Lemma get_slices_app {A : Type} `{Arith A} (df1 df2 : series A) (n : Z) (k : nat) :
  (0 < n)%Z ->
  length df1 = (k * Z.to_nat n)%nat ->
  exists slices1 slices2,
    get_slices df1 n = Returns slices1
    /\ get_slices df2 n = Returns slices2
    /\ get_slices (df1 ++ df2) n = Returns (slices1 ++ slices2)
    /\ length slices1 = k.
Proof.
  intros Hn Hlen.
  rewrite (get_slices_pos df1 n Hn), (get_slices_pos df2 n Hn),
    (get_slices_pos (df1 ++ df2) n Hn).
  do 2 eexists. split; [reflexivity|]. split; [reflexivity|].
  set (N := Z.to_nat n) in *.
  assert (HN : Z.of_nat N = n) by (subst N; lia).
  assert (Hc1 : Z.to_nat ((Z.of_nat (length df1) + n - 1) / n) = k).
  { rewrite Hlen, Nat2Z.inj_mul, HN.
    rewrite <- (Z.div_unique (Z.of_nat k * n + n - 1) n (Z.of_nat k) (n - 1)); lia. }
  assert (Hc : Z.to_nat ((Z.of_nat (length (df1 ++ df2)) + n - 1) / n)
               = (k + Z.to_nat ((Z.of_nat (length df2) + n - 1) / n))%nat).
  { rewrite length_app, Hlen, Nat2Z.inj_add, Nat2Z.inj_mul, HN.
    replace (Z.of_nat k * n + Z.of_nat (length df2) + n - 1)%Z
      with (Z.of_nat k * n + (Z.of_nat (length df2) + n - 1))%Z by lia.
    rewrite Z.div_add_l by lia.
    rewrite Z2Nat.inj_add, Nat2Z.id; [reflexivity | lia |].
    apply Z.div_pos; lia. }
  rewrite Hc1, Hc. split; [|now rewrite length_map, length_seq].
  f_equal. rewrite seq_app, map_app. f_equal.
  - apply map_ext_in. intros j Hj. apply in_seq in Hj.
    assert (Hj' : (j * N + N <= k * N)%nat) by nia.
    rewrite skipn_app, firstn_app, length_skipn.
    replace (j * N - length df1)%nat with 0%nat by lia.
    replace (N - (length df1 - j * N))%nat with 0%nat by lia.
    cbn [skipn firstn]. now rewrite app_nil_r.
  - cbn [Nat.add]. rewrite <- (Nat.add_0_r k) at 1.
    rewrite seq_add_start, map_map. apply map_ext. intro j.
    rewrite skipn_app.
    replace ((k + j) * N - length df1)%nat with (j * N)%nat by nia.
    rewrite (skipn_all2 df1) by nia. reflexivity.
Qed.

Lemma window_frame_inv {A : Type} `{Arith A} (df : series A) (n : Z)
    (slices : list (series A)) (summaries : list (A * A)) :
  get_slices df n = Returns slices ->
  calculate_draw_down df n false = Returns (WindowFrame summaries) ->
  for_each (fun df_slice =>
              df_temp <- get_full_period_dd df_slice ;; last_summary df_temp)
           slices = Returns summaries
  /\ summaries <> [].
Proof.
  intros Es Hc. unfold calculate_draw_down in Hc. rewrite Es in Hc. cbn [bind] in Hc.
  destruct (for_each _ slices) as [us|e]; [|discriminate]. cbn [bind] in Hc.
  destruct us as [|u us]; [discriminate|]. cbn [pd_concat bind] in Hc.
  injection Hc as <-. split; [reflexivity | discriminate].
Qed.

Lemma drawdown_window_chunks {A : Type} `{Arith A} (df : series A) (n : Z) :
  df <> [] ->
  (0 < n)%Z ->
  exists slices summaries,
    get_slices df n = Returns slices
    /\ Forall (fun df_slice => df_slice <> []) slices
    /\ calculate_draw_down df n false = Returns (WindowFrame summaries)
    /\ length summaries = length slices.
Proof.
  intros Hne Hn.
  destruct (get_slices_nonempty df n Hn) as (slices & Es & Hall & _ & Hsl).
  assert (Hbody : Forall (fun t => exists u,
                     (df_temp <- get_full_period_dd t ;; last_summary df_temp)
                     = Returns u) slices).
  { eapply Forall_impl; [|exact Hall]. intros sl. apply window_summary_returns. }
  destruct (for_each_returns _ slices Hbody) as (us & Eus & Hlus).
  exists slices, us. repeat (split; [assumption|]).
  split; [|assumption].
  unfold calculate_draw_down. rewrite Es. cbn [bind]. rewrite Eus. cbn [bind].
  destruct us as [|u us]; [|reflexivity].
  exfalso. apply (Hsl Hne). destruct slices; [reflexivity | discriminate].
Qed.

(** X5.  Windows do not see one another: when the first part of a series
    fills whole windows, the summaries of the series are the summaries of
    that part followed by the summaries of the rest. *)
Theorem windows_are_independent :
  forall (A : Type) (arith : Arith A) (df1 df2 : series A) (n : Z) (k : nat),
    (0 < n)%Z ->
    df1 <> [] -> df2 <> [] ->
    length df1 = (k * Z.to_nat n)%nat ->
    exists s1 s2,
      calculate_draw_down df1 n false = Returns (WindowFrame s1)
      /\ calculate_draw_down df2 n false = Returns (WindowFrame s2)
      /\ calculate_draw_down (df1 ++ df2) n false = Returns (WindowFrame (s1 ++ s2))
      /\ length s1 = k.
Proof.
  intros A arith df1 df2 n k Hn Hne1 Hne2 Hlen.
  destruct (drawdown_window_chunks df1 n Hne1 Hn) as (sl1' & s1 & E1' & _ & H1 & Hl1).
  destruct (drawdown_window_chunks df2 n Hne2 Hn) as (sl2' & s2 & E2' & _ & H2 & _).
  destruct (get_slices_app df1 df2 n k Hn Hlen) as (sl1 & sl2 & E1 & E2 & E & Hk).
  destruct (window_frame_inv df1 n sl1 s1 E1 H1) as [F1 Hne].
  destruct (window_frame_inv df2 n sl2 s2 E2 H2) as [F2 _].
  exists s1, s2. split; [exact H1|]. split; [exact H2|]. split.
  - unfold calculate_draw_down. rewrite E. cbn [bind].
    rewrite for_each_app, F1, F2. cbn [bind].
    destruct s1; [contradiction | reflexivity].
  - assert (sl1' = sl1) by congruence. subst sl1'. congruence.
Qed.

Lemma windows_are_independent_witness :
  exists s1 s2,
    calculate_draw_down
      (fin_series [(mkdate 2024 1 1, 100); (mkdate 2024 1 2, 90)]) 2 false
    = Returns (WindowFrame s1)
    /\ calculate_draw_down
         (fin_series [(mkdate 2024 1 3, 95); (mkdate 2024 1 4, 80);
                      (mkdate 2024 1 5, 120)]) 2 false
       = Returns (WindowFrame s2)
    /\ calculate_draw_down
         (fin_series [(mkdate 2024 1 1, 100); (mkdate 2024 1 2, 90)]
          ++ fin_series [(mkdate 2024 1 3, 95); (mkdate 2024 1 4, 80);
                         (mkdate 2024 1 5, 120)]) 2 false
       = Returns (WindowFrame (s1 ++ s2))
    /\ length s1 = 1%nat.
Proof.
  apply (windows_are_independent num num_arith
           (fin_series [(mkdate 2024 1 1, 100); (mkdate 2024 1 2, 90)])
           (fin_series [(mkdate 2024 1 3, 95); (mkdate 2024 1 4, 80);
                        (mkdate 2024 1 5, 120)]) 2 1);
    [lia | discriminate | discriminate | reflexivity].
Defined.

(** X6.  With a positive window the series is cut into
    [ceil(len / freq_days)] chunks, one summary each; every chunk but the
    last has exactly [freq_days] rows and the last has between 1 and
    [freq_days]. *)
Theorem window_count_and_sizes :
  forall (A : Type) (arith : Arith A) (df : series A) (n : Z),
    df <> [] ->
    (0 < n)%Z ->
    exists slices summaries,
      get_slices df n = Returns slices
      /\ calculate_draw_down df n false = Returns (WindowFrame summaries)
      /\ length summaries = length slices
      /\ length slices = Z.to_nat ((Z.of_nat (length df) + n - 1) / n)
      /\ Forall (fun sl => (1 <= length sl <= Z.to_nat n)%nat) slices
      /\ (forall j, (S j < length slices)%nat ->
                    length (nth j slices []) = Z.to_nat n).
Proof.
  intros A arith df n Hne Hn.
  destruct (drawdown_window_chunks df n Hne Hn)
    as (slices & summaries & Es & Hall & Hc & Hlen).
  exists slices, summaries. repeat (split; [assumption|]).
  rewrite (get_slices_pos df n Hn) in Es. injection Es as Es.
  destruct (chunk_count_bounds (length df) n Hn) as [_ Hin].
  set (cnt := Z.to_nat ((Z.of_nat (length df) + n - 1) / n)) in *.
  set (N := Z.to_nat n) in *.
  assert (HN : (0 < N)%nat) by (subst N; lia).
  subst slices. rewrite length_map, length_seq. split; [reflexivity|]. split.
  - apply Forall_forall. intros sl Hsl.
    apply in_map_iff in Hsl. destruct Hsl as (j & <- & Hj).
    apply in_seq in Hj. specialize (Hin j ltac:(lia)).
    rewrite length_firstn, length_skipn. lia.
  - intros j Hj.
    rewrite (nth_indep _ [] (firstn N (skipn (0 * N) df)))
      by (rewrite length_map, length_seq; lia).
    rewrite (map_nth (fun k => firstn N (skipn (k * N) df)) (seq 0 cnt) 0%nat j).
    rewrite seq_nth by lia. cbn [Nat.add].
    specialize (Hin (S j) Hj).
    rewrite length_firstn, length_skipn. cbn [Nat.mul] in Hin. lia.
Qed.

Lemma window_count_and_sizes_witness :
  exists slices summaries,
    get_slices (fin_series drawdown_scenario) 2 = Returns slices
    /\ calculate_draw_down (fin_series drawdown_scenario) 2 false
       = Returns (WindowFrame summaries)
    /\ length summaries = length slices
    /\ length slices = 3%nat
    /\ Forall (fun sl => (1 <= length sl <= 2)%nat) slices
    /\ (forall j, (S j < length slices)%nat -> length (nth j slices []) = 2%nat).
Proof.
  apply (window_count_and_sizes num num_arith (fin_series drawdown_scenario) 2).
  - discriminate.
  - lia.
Defined.

(** * Further properties of the Sharpe calculator *)

(** X7.  The frequency is checked in periodic mode only: there, a
    frequency other than ["ME"] and ["YE"] raises ValueError whatever the
    data.  Full-period mode returns a scalar for every frequency string,
    and the same scalar for all of them. *)
Theorem sharpe_freq_checked_in_periodic_mode_only :
  forall (A : Type) (arith : Arith A) (quotes : series A)
         (start_date end_date : date) (df_index : series A) (freq freq' : string),
    (valid_freq freq = false ->
     get_sharpe_ratio quotes start_date end_date df_index freq false
     = Raises ValueError)
    /\ exists v,
         get_sharpe_ratio quotes start_date end_date df_index freq true
         = Returns (Scalar v)
         /\ get_sharpe_ratio quotes start_date end_date df_index freq' true
            = Returns (Scalar v).
Proof.
  intros A arith quotes sd ed df freq freq'. split.
  - intro Hf. unfold get_sharpe_ratio. now rewrite Hf.
  - rewrite !get_sharpe_ratio_full_period. cbv zeta.
    eexists. split; reflexivity.
Qed.

Lemma sharpe_freq_checked_in_periodic_mode_only_witness :
  get_sharpe_ratio zero_quotes (mkdate 2024 1 1) (mkdate 2024 1 4)
    (fin_series sharpe_scenario) "W" false = Raises ValueError.
Proof.
  apply (proj1 (sharpe_freq_checked_in_periodic_mode_only num num_arith zero_quotes
                  (mkdate 2024 1 1) (mkdate 2024 1 4) (fin_series sharpe_scenario)
                  "W" "YE")).
  reflexivity.
Defined.

Section Alignment.
Context {A : Type} `{Arith A}.

Lemma loc_not_in_index (d : date) (s : series A) :
  ~ In d (index s) -> loc d s = None.
Proof.
  induction s as [|[d' v] s IH]; [reflexivity|]. cbn [index map fst loc]. intro Hn.
  destruct (date_eqb d d') eqn:E.
  - apply date_eqb_eq in E. subst d'. exfalso. apply Hn. now left.
  - apply IH. intro Hin. apply Hn. now right.
Qed.

Lemma loc_app_not_in (d : date) (pre s : series A) :
  ~ In d (index pre) -> loc d (pre ++ s) = loc d s.
Proof.
  induction pre as [|[d' v] pre IH]; [reflexivity|]. cbn [index map fst app loc].
  intro Hn. destruct (date_eqb d d') eqn:E.
  - apply date_eqb_eq in E. subst d'. exfalso. apply Hn. now left.
  - apply IH. intro Hin. apply Hn. now right.
Qed.

Lemma loc_head (d : date) (v : A) (s : series A) : loc d ((d, v) :: s) = Some v.
Proof. cbn [loc]. now rewrite (proj2 (date_eqb_eq d d) eq_refl). Qed.

(** On one unique index, index-aligned subtraction is row by row. *)
Lemma series_sub_aligned (s other : series A) :
  forall pre : series A,
    NoDup (index (pre ++ s)) ->
    index other = index s ->
    map (fun row => (fst row,
                     match loc (fst row) (pre ++ s) with
                     | Some v => fsub v (snd row)
                     | None => fnan
                     end)) other
    = map (fun rows => (fst (fst rows), fsub (snd (fst rows)) (snd (snd rows))))
          (combine s other).
Proof.
  revert other. induction s as [|[d v] s IH]; intros other pre Hnd Hidx.
  - destruct other; [reflexivity | discriminate].
  - destruct other as [|[d' r] other]; [discriminate|].
    cbn [index map fst] in Hidx. injection Hidx as -> Hidx.
    cbn [map combine fst snd].
    assert (Hd : ~ In d (index pre)).
    { unfold index in Hnd. rewrite map_app in Hnd. cbn [map fst] in Hnd.
      apply NoDup_remove_2 in Hnd. intro Hin. apply Hnd.
      apply in_or_app. now left. }
    rewrite (loc_app_not_in d pre _ Hd), loc_head. f_equal.
    specialize (IH other (pre ++ [(d, v)])).
    rewrite <- app_assoc in IH. cbn [app] in IH. apply IH; assumption.
Qed.

Lemma index_loc_slice (a b : date) (s : series A) :
  index (loc_slice a b s)
  = filter (fun d => date_leb a d && date_leb d b) (index s).
Proof.
  unfold loc_slice, index. induction s as [|[d v] s IH]; [reflexivity|].
  cbn [filter map fst]. destruct (date_leb a d && date_leb d b); cbn [map fst];
    now rewrite IH.
Qed.

Lemma NoDup_index_loc_slice (a b : date) (s : series A) :
  NoDup (index s) -> NoDup (index (loc_slice a b s)).
Proof. intro Hnd. rewrite index_loc_slice. now apply NoDup_filter. Qed.

End Alignment.

(** The excess returns of full-period mode: the aligned subtraction brings
    the anchor date back with NaN, and pairs every return with the
    risk-free rate of its own date. *)
Lemma full_period_excess {A : Type} `{Arith A} (quotes : series A)
    (start_date end_date : date) (df_index : series A) :
  NoDup (index df_index) ->
  loc_slice start_date end_date df_index <> [] ->
  values (series_sub (df_sharpe_of start_date end_date df_index)
            (map (fun row => (fst row, fdiv (snd row) (of_int 365)))
                 (df_risk_free_of quotes start_date end_date df_index)))
  = fnan
    :: map (fun p => fsub (fst p) (fdiv (snd p) (of_int 365)))
         (combine (values (df_sharpe_of start_date end_date df_index))
                  (tl (values (df_risk_free_of quotes start_date end_date df_index)))).
Proof.
  intros Hnd Hne.
  pose proof (NoDup_index_loc_slice start_date end_date df_index Hnd) as Hnd'.
  pose proof (index_df_sharpe_of start_date end_date df_index) as Hs.
  pose proof (index_df_risk_free_of quotes start_date end_date df_index) as Hr.
  set (s := df_sharpe_of start_date end_date df_index) in *.
  set (rf := df_risk_free_of quotes start_date end_date df_index) in *.
  destruct (loc_slice start_date end_date df_index) as [|[d0 v0] sl]; [contradiction|].
  cbn [index map fst tl] in Hs, Hr, Hnd'.
  destruct rf as [|[d r] rf]; [discriminate|].
  cbn [index map fst] in Hr. injection Hr as -> Hr.
  apply NoDup_cons_iff in Hnd'. destruct Hnd' as [Hd0 Hnd'].
  unfold series_sub. cbn [map fst snd values tl].
  rewrite (loc_not_in_index d0 s) by (rewrite Hs; exact Hd0).
  f_equal.
  pose proof (series_sub_aligned s
                (map (fun row => (fst row, fdiv (snd row) (of_int 365))) rf) []) as Hal.
  cbn [app] in Hal. rewrite Hal.
  - unfold values. rewrite map_map. cbn [snd fst].
    clear. revert rf. induction s as [|[d v] s IH]; intros [|[d' r] rf];
      try reflexivity.
    cbn [map combine fst snd]. f_equal. apply IH.
  - rewrite Hs. exact Hnd'.
  - unfold index in *. rewrite map_map, Hs, <- Hr. apply map_ext. reflexivity.
Qed.

Lemma empty_slice_columns {A : Type} `{Arith A} (quotes : series A)
    (start_date end_date : date) (df_index : series A) :
  loc_slice start_date end_date df_index = [] ->
  df_sharpe_of start_date end_date df_index = []
  /\ df_risk_free_of quotes start_date end_date df_index = [].
Proof.
  intro E. split.
  - unfold df_sharpe_of. now rewrite E.
  - pose proof (index_df_risk_free_of quotes start_date end_date df_index) as Hr.
    rewrite E in Hr.
    destruct (df_risk_free_of quotes start_date end_date df_index);
      [reflexivity | discriminate].
Qed.

Lemma std_short (xs : list num) : (length (dropna xs) <= 1)%nat -> std xs = NaN.
Proof.
  intro Hlen. unfold std.
  destruct (Nat.leb_spec (length (dropna xs)) 1); [reflexivity | lia].
Qed.

Lemma length_dropna (xs : list num) : (length (dropna xs) <= length xs)%nat.
Proof. unfold dropna. apply filter_length_le. Qed.

(** X8.  On a frame with distinct dates, full-period mode returns
    [mean(e) / stdev(e) * sqrt(365)] where [e] pairs each percent return
    with the daily risk-free rate of the same date,
    [e = return - risk_free / 365]; the anchor date, which index alignment
    brings back as NaN, does not count. *)
Theorem full_period_sharpe_formula :
  forall (quotes : series num) (start_date end_date : date) (df_index : series num)
         (freq : string),
    NoDup (index df_index) ->
    get_sharpe_ratio quotes start_date end_date df_index freq true
    = Returns
        (Scalar
           (spec_scenario_sharpe
              (map (fun p => fsub (fst p) (fdiv (snd p) (of_int 365)))
                   (combine
                      (values (df_sharpe_of start_date end_date df_index))
                      (tl (values (df_risk_free_of quotes start_date end_date
                                     df_index))))))).
Proof.
  intros quotes sd ed df freq Hnd.
  rewrite get_sharpe_ratio_full_period. cbv zeta.
  destruct (loc_slice sd ed df) eqn:E.
  - destruct (empty_slice_columns quotes sd ed df E) as [-> ->]. reflexivity.
  - rewrite (full_period_excess quotes sd ed df Hnd) by (rewrite E; discriminate).
    reflexivity.
Qed.

Lemma full_period_sharpe_formula_witness :
  get_sharpe_ratio zero_quotes (mkdate 2024 1 1) (mkdate 2024 1 4)
    (fin_series sharpe_scenario) "YE" true
  = Returns
      (Scalar
         (spec_scenario_sharpe
            (map (fun p => fsub (fst p) (fdiv (snd p) (of_int 365)))
                 (combine
                    (values (df_sharpe_of (mkdate 2024 1 1) (mkdate 2024 1 4)
                               (fin_series sharpe_scenario)))
                    (tl (values (df_risk_free_of zero_quotes (mkdate 2024 1 1)
                                   (mkdate 2024 1 4)
                                   (fin_series sharpe_scenario)))))))).
Proof.
  apply (full_period_sharpe_formula zero_quotes (mkdate 2024 1 1) (mkdate 2024 1 4)
           (fin_series sharpe_scenario) "YE").
  repeat constructor; simpl; intuition discriminate.
Defined.

(** X9.  Full-period mode needs two returns: on a frame with distinct
    dates and at most two rows in the date range the ratio is NaN. *)
Theorem full_period_sharpe_needs_two_returns :
  forall (quotes : series num) (start_date end_date : date) (df_index : series num)
         (freq : string),
    NoDup (index df_index) ->
    (length (loc_slice start_date end_date df_index) <= 2)%nat ->
    get_sharpe_ratio quotes start_date end_date df_index freq true
    = Returns (Scalar NaN).
Proof.
  intros quotes sd ed df freq Hnd Hlen.
  rewrite get_sharpe_ratio_full_period. cbv zeta.
  assert (Hstd : forall xs m, (length xs <= 2)%nat -> hd NaN xs = NaN ->
                   fmul (fdiv m (std xs)) (fsqrt (of_int 365)) = NaN).
  { intros xs m Hxs Hhd.
    assert (E : std xs = NaN).
    { apply std_short. destruct xs as [|x xs]; [simpl; lia|].
      cbn [hd] in Hhd. subst x. change (dropna (NaN :: xs)) with (dropna xs).
      pose proof (length_dropna xs). cbn [length] in Hxs. lia. }
    rewrite E. cbn [fdiv fmul num_arith]. now rewrite ndiv_nan_r. }
  do 2 f_equal. apply Hstd.
  - unfold values, series_sub. rewrite !length_map.
    pose proof (index_df_risk_free_of quotes sd ed df) as Hr.
    apply (f_equal (@length _)) in Hr. unfold index in Hr.
    rewrite !length_map in Hr. lia.
  - destruct (loc_slice sd ed df) eqn:E.
    + destruct (empty_slice_columns quotes sd ed df E) as [-> ->]. reflexivity.
    + rewrite (full_period_excess quotes sd ed df Hnd) by (rewrite E; discriminate).
      reflexivity.
Qed.

Lemma full_period_sharpe_needs_two_returns_witness :
  get_sharpe_ratio zero_quotes (mkdate 2024 1 1) (mkdate 2024 1 2)
    (fin_series sharpe_scenario) "YE" true
  = Returns (Scalar NaN).
Proof.
  apply (full_period_sharpe_needs_two_returns zero_quotes (mkdate 2024 1 1)
           (mkdate 2024 1 2) (fin_series sharpe_scenario) "YE").
  - repeat constructor; simpl; intuition discriminate.
  - simpl. lia.
Defined.

(** * Forward and backward fill *)

Section Fill.
Context {A : Type} `{Arith A}.

Lemma ffill_from_some_valid (s : series A) :
  forall l, fisnan l = false -> Forall is_number (ffill_from (Some l) s).
Proof.
  induction s as [|[d v] s IH]; intros l Hl; [constructor|].
  cbn [ffill_from]. destruct (fisnan v) eqn:E.
  - constructor; [exact Hl | now apply IH].
  - constructor; [exact E | now apply IH].
Qed.

Lemma ffill_from_head_valid (d : date) (v : A) (s : series A) (last : option A) :
  fisnan v = false -> Forall is_number (ffill_from last ((d, v) :: s)).
Proof.
  intro Hv. cbn [ffill_from]. rewrite Hv.
  constructor; [exact Hv | now apply ffill_from_some_valid].
Qed.

Lemma ffill_shape (s : series A) :
  Exists is_number s ->
  exists nans valids,
    ffill_from None s = nans ++ valids
    /\ valids <> [] /\ Forall is_number valids.
Proof.
  induction s as [|[d v] s IH]; intro Hex; [inversion Hex|].
  destruct (fisnan v) eqn:E.
  - assert (Hex' : Exists is_number s).
    { inversion Hex as [? ? Hh|]; subst; [|assumption].
      unfold is_number in Hh. cbn [snd] in Hh. congruence. }
    destruct (IH Hex') as (nans & valids & E1 & Hne & Hall).
    exists ((d, v) :: nans), valids. cbn [ffill_from]. rewrite E, E1.
    repeat split; assumption.
  - exists [], (ffill_from None ((d, v) :: s)).
    split; [reflexivity|]. split.
    + cbn [ffill_from]. rewrite E. discriminate.
    + now apply ffill_from_head_valid.
Qed.

Lemma fill_no_nan (s : series A) :
  Exists is_number s -> Forall is_number (fill s).
Proof.
  intro Hex. unfold fill, bfill, ffill.
  destruct (ffill_shape s Hex) as (nans & valids & -> & Hne & Hall).
  apply Forall_rev. rewrite rev_app_distr.
  destruct (rev valids) as [|[d v] rest] eqn:E.
  - apply (f_equal (@rev _)) in E. rewrite rev_involutive in E. now subst valids.
  - cbn [app]. apply ffill_from_head_valid.
    assert (Hin : In (d, v) valids) by (apply in_rev; rewrite E; now left).
    rewrite Forall_forall in Hall. exact (Hall _ Hin).
Qed.

Lemma ffill_from_id_numbers (s : series A) :
  forall last, Forall is_number s -> ffill_from last s = s.
Proof.
  induction s as [|[d v] s IH]; intros last Hall; [reflexivity|].
  inversion Hall as [|? ? Hv Hrest]; subst. unfold is_number in Hv. cbn [snd] in Hv.
  cbn [ffill_from]. rewrite Hv. f_equal. now apply IH.
Qed.

Lemma ffill_from_id_nans (s : series A) :
  Forall (fun row => fisnan (snd row) = true) s -> ffill_from None s = s.
Proof.
  induction 1 as [|[d v] s Hv _ IH]; [reflexivity|].
  cbn [snd] in Hv. cbn [ffill_from]. now rewrite Hv, IH.
Qed.

Lemma numbers_or_nans (s : series A) :
  Exists is_number s \/ Forall (fun row => fisnan (snd row) = true) s.
Proof.
  induction s as [|[d v] s [IH | IH]].
  - right. constructor.
  - left. now apply Exists_cons_tl.
  - destruct (fisnan v) eqn:E.
    + right. now constructor.
    + left. now apply Exists_cons_hd.
Qed.

Lemma fill_idempotent (s : series A) : fill (fill s) = fill s.
Proof.
  destruct (numbers_or_nans s) as [Hex | Hnan].
  - pose proof (fill_no_nan s Hex) as Hall.
    unfold fill at 1. unfold bfill, ffill.
    rewrite (ffill_from_id_numbers (fill s) None Hall).
    rewrite ffill_from_id_numbers by now apply Forall_rev.
    apply rev_involutive.
  - assert (E : fill s = s).
    { unfold fill, bfill, ffill. rewrite (ffill_from_id_nans s Hnan).
      rewrite ffill_from_id_nans by now apply Forall_rev.
      apply rev_involutive. }
    now rewrite !E.
Qed.

Lemma index_fill (s : series A) : index (fill s) = index s.
Proof. unfold fill, ffill. now rewrite index_bfill, index_ffill_from. Qed.

Lemma loc_in (d : date) (v : A) (s : series A) : loc d s = Some v -> In (d, v) s.
Proof.
  induction s as [|[d' v'] s IH]; [discriminate|]. cbn [loc].
  destruct (date_eqb d d') eqn:E.
  - apply date_eqb_eq in E. subst d'. intro F. injection F as ->. now left.
  - intro F. right. now apply IH.
Qed.

(** X10.  The risk-free column that [get_sharpe_ratio] builds has the
    index of the sliced frame, and holds a number on every date as soon as
    one quote in the date range falls on a date of the frame and is a
    number: reindexing leaves gaps, forward then backward fill closes all
    of them. *)
Theorem risk_free_column_has_no_gap :
  forall (quotes : series A) (start_date end_date : date) (df_index : series A)
         (d : date) (r : A),
    In d (index (loc_slice start_date end_date df_index)) ->
    loc d (get_risk_free_rate quotes start_date end_date) = Some r ->
    fisnan r = false ->
    index (df_risk_free_of quotes start_date end_date df_index)
    = index (loc_slice start_date end_date df_index)
    /\ Forall (fun row => fisnan (snd row) = false)
              (df_risk_free_of quotes start_date end_date df_index).
Proof.
  intros quotes sd ed df d r Hin Hloc Hr.
  split; [apply index_df_risk_free_of|].
  apply fill_no_nan. apply Exists_exists. exists (d, r). split; [|exact Hr].
  unfold reindex. apply in_map_iff. exists d. now rewrite Hloc.
Qed.

End Fill.

Lemma risk_free_column_has_no_gap_witness :
  index (df_risk_free_of zero_quotes (mkdate 2024 1 1) (mkdate 2024 1 4)
           (fin_series sharpe_scenario))
  = index (loc_slice (mkdate 2024 1 1) (mkdate 2024 1 4) (fin_series sharpe_scenario))
  /\ Forall (fun row => fisnan (snd row) = false)
            (df_risk_free_of zero_quotes (mkdate 2024 1 1) (mkdate 2024 1 4)
               (fin_series sharpe_scenario)).
Proof.
  apply (risk_free_column_has_no_gap zero_quotes (mkdate 2024 1 1) (mkdate 2024 1 4)
           (fin_series sharpe_scenario) (mkdate 2024 1 2) (Fin 0)).
  - simpl. right. now left.
  - reflexivity.
  - reflexivity.
Defined.

(** * Further properties of the portfolio standard deviation *)

(** X11.  On [n] assets ([n] weights, [n] standard deviations, an [n] by
    [n] correlation matrix of numbers) the matrix products of the code
    compute the variance of the docstring, the double sum of
    [w_i w_j sigma_i sigma_j rho_ij]; when that sum is not negative the
    function returns its square root. *)
Theorem portfolio_std_is_docstring_formula :
  forall (n : nat) (w sigma : list R) (rho : list (list R)),
    length w = n -> length sigma = n -> square n rho ->
    portfolio_variance (map Fin w) (map Fin sigma) (map (map Fin) rho)
    = Returns (Fin (variance_formula n w sigma rho))
    /\ (0 <= variance_formula n w sigma rho ->
        calculate_portfolio_std (map Fin w) (map Fin sigma) (map (map Fin) rho)
        = Returns (Fin (sqrt (variance_formula n w sigma rho)))).
Proof.
  intros n w sigma rho Hw Hs Hr.
  pose proof (portfolio_variance_fin n w sigma rho Hw Hs Hr) as E.
  split; [exact E|].
  intro Hpos. unfold calculate_portfolio_std. rewrite E.
  cbn [bind fsqrt num_arith]. now rewrite nsqrt_fin.
Qed.

Lemma portfolio_std_is_docstring_formula_witness :
  portfolio_variance (map Fin [0.5; 0.5]) (map Fin [0.2; 0.2])
    (map (map Fin) [[1; 1]; [1; 1]])
  = Returns (Fin (variance_formula 2 [0.5; 0.5] [0.2; 0.2] [[1; 1]; [1; 1]]))
  /\ calculate_portfolio_std (map Fin [0.5; 0.5]) (map Fin [0.2; 0.2])
       (map (map Fin) [[1; 1]; [1; 1]])
     = Returns (Fin (sqrt (variance_formula 2 [0.5; 0.5] [0.2; 0.2] [[1; 1]; [1; 1]]))).
Proof.
  destruct (portfolio_std_is_docstring_formula 2 [0.5; 0.5] [0.2; 0.2]
              [[1; 1]; [1; 1]] eq_refl eq_refl) as [E1 E2].
  - split; [reflexivity | repeat constructor].
  - split; [exact E1|]. apply E2.
    unfold variance_formula, Rsum. simpl. lra.
Defined.

Lemma two_asset_variance (w1 w2 s1 s2 r11 r12 r21 r22 : R) :
  portfolio_variance [Fin w1; Fin w2] [Fin s1; Fin s2]
    [[Fin r11; Fin r12]; [Fin r21; Fin r22]]
  = Returns (Fin (w1 * w1 * s1 * s1 * r11 + w1 * w2 * s1 * s2 * r12
                  + w2 * w1 * s2 * s1 * r21 + w2 * w2 * s2 * s2 * r22)).
Proof.
  change (portfolio_variance (map Fin [w1; w2]) (map Fin [s1; s2])
            (map (map Fin) [[r11; r12]; [r21; r22]])
          = Returns (Fin (w1 * w1 * s1 * s1 * r11 + w1 * w2 * s1 * s2 * r12
                          + w2 * w1 * s2 * s1 * r21 + w2 * w2 * s2 * s2 * r22))).
  rewrite (portfolio_variance_fin 2 [w1; w2] [s1; s2] [[r11; r12]; [r21; r22]]
             eq_refl eq_refl)
    by (split; [reflexivity | repeat constructor]).
  do 2 apply f_equal.
  unfold variance_formula, Rsum. cbn [seq map fold_right nth]. ring.
Qed.

(** X12.  Two perfectly correlated assets give no diversification: with
    non-negative weights and standard deviations and a correlation matrix
    of ones, the portfolio standard deviation is the weighted sum
    [w1 sigma1 + w2 sigma2]. *)
Theorem perfectly_correlated_pair :
  forall w1 w2 s1 s2 : R,
    0 <= w1 -> 0 <= w2 -> 0 <= s1 -> 0 <= s2 ->
    calculate_portfolio_std [Fin w1; Fin w2] [Fin s1; Fin s2]
      [[Fin 1; Fin 1]; [Fin 1; Fin 1]]
    = Returns (Fin (w1 * s1 + w2 * s2)).
Proof.
  intros w1 w2 s1 s2 Hw1 Hw2 Hs1 Hs2.
  unfold calculate_portfolio_std. rewrite two_asset_variance. cbn [bind].
  assert (Hsum : 0 <= w1 * s1 + w2 * s2).
  { apply Rplus_le_le_0_compat; apply Rmult_le_pos; assumption. }
  match goal with
  | |- context [fsqrt (Fin ?e)] =>
      replace e with ((w1 * s1 + w2 * s2) * (w1 * s1 + w2 * s2)) by ring
  end.
  cbn [fsqrt num_arith].
  rewrite nsqrt_fin by (apply Rmult_le_pos; assumption).
  now rewrite sqrt_square.
Qed.

Lemma perfectly_correlated_pair_witness :
  calculate_portfolio_std [Fin 0.5; Fin 0.5] [Fin 0.2; Fin 0.2]
    [[Fin 1; Fin 1]; [Fin 1; Fin 1]]
  = Returns (Fin (0.5 * 0.2 + 0.5 * 0.2)).
Proof. apply (perfectly_correlated_pair 0.5 0.5 0.2 0.2); lra. Defined.

(** X13.  Two uncorrelated assets: the portfolio standard deviation is
    [sqrt((w1 sigma1)^2 + (w2 sigma2)^2)]; for two equally weighted assets
    of one standard deviation [sigma >= 0] it is [sigma / sqrt 2]. *)
Theorem uncorrelated_pair :
  forall w1 w2 s1 s2 : R,
    calculate_portfolio_std [Fin w1; Fin w2] [Fin s1; Fin s2]
      [[Fin 1; Fin 0]; [Fin 0; Fin 1]]
    = Returns (Fin (sqrt ((w1 * s1) * (w1 * s1) + (w2 * s2) * (w2 * s2))))
    /\ (w1 = 0.5 -> w2 = 0.5 -> s2 = s1 -> 0 <= s1 ->
        calculate_portfolio_std [Fin w1; Fin w2] [Fin s1; Fin s2]
          [[Fin 1; Fin 0]; [Fin 0; Fin 1]]
        = Returns (Fin (s1 / sqrt 2))).
Proof.
  intros w1 w2 s1 s2.
  assert (Hsq : forall x, 0 <= x * x) by (intro x; nra).
  assert (E : calculate_portfolio_std [Fin w1; Fin w2] [Fin s1; Fin s2]
                [[Fin 1; Fin 0]; [Fin 0; Fin 1]]
              = Returns (Fin (sqrt ((w1 * s1) * (w1 * s1) + (w2 * s2) * (w2 * s2))))).
  { unfold calculate_portfolio_std. rewrite two_asset_variance. cbn [bind].
    match goal with
    | |- context [fsqrt (Fin ?e)] =>
        replace e with ((w1 * s1) * (w1 * s1) + (w2 * s2) * (w2 * s2)) by ring
    end.
    cbn [fsqrt num_arith].
    rewrite nsqrt_fin; [reflexivity|].
    apply Rplus_le_le_0_compat; apply Hsq. }
  split; [exact E|].
  intros -> -> -> Hs. rewrite E. do 2 f_equal.
  replace (0.5 * s1 * (0.5 * s1) + 0.5 * s1 * (0.5 * s1)) with (s1 * s1 / 2) by lra.
  rewrite sqrt_div_alt by lra. now rewrite sqrt_square.
Qed.

Lemma uncorrelated_pair_witness :
  calculate_portfolio_std [Fin 0.5; Fin 0.5] [Fin 0.2; Fin 0.2]
    [[Fin 1; Fin 0]; [Fin 0; Fin 1]]
  = Returns (Fin (0.2 / sqrt 2)).
Proof.
  apply (proj2 (uncorrelated_pair 0.5 0.5 0.2 0.2)); [reflexivity .. | lra].
Defined.



(** * Further properties of the aggregator *)

(** X14.  On the frames of the data model (dates increasing) the empty
    frame is the one frame on which [calculate_model_performance_stats]
    fails, with IndexError at [iloc[-1]]; on every other one it returns a
    record whose raw value is the value of the last row and whose return is
    [raw_value / base - 1]. *)
Theorem stats_fail_on_empty_frame_only :
  forall (A : Type) (arith : Arith A) (quotes df : series A) (base : A),
    StronglySorted date_lt (index df) ->
    (df = [] ->
     calculate_model_performance_stats quotes df base = Raises IndexError)
    /\ (df <> [] ->
        exists st last_row,
          iloc_last df = Returns last_row
          /\ loc_slice (fst (hd last_row df)) (fst last_row) df = df
          /\ calculate_model_performance_stats quotes df base = Returns st
          /\ raw_value st = snd last_row
          /\ returns st = fsub (fdiv (snd last_row) base) (of_int 1))
    /\ ((exists e, calculate_model_performance_stats quotes df base = Raises e)
        <-> df = []).
Proof.
  intros A arith quotes df base Hsorted.
  assert (Hempty : calculate_model_performance_stats quotes [] base
                   = Raises IndexError) by reflexivity.
  assert (Hfull : df <> [] ->
            exists st last_row,
              iloc_last df = Returns last_row
              /\ loc_slice (fst (hd last_row df)) (fst last_row) df = df
              /\ calculate_model_performance_stats quotes df base = Returns st
              /\ raw_value st = snd last_row
              /\ returns st = fsub (fdiv (snd last_row) base) (of_int 1)).
  { intro Hne.
    destruct (iloc_last_returns df Hne) as (last_row & l' & Hsnoc & Hlast).
    destruct (get_full_period_dd_returns df Hne) as (rows & Erows & Hlen).
    assert (Hrows : rows <> []).
    { intro; subst rows. destruct df; [contradiction | discriminate]. }
    destruct (iloc_last_returns rows Hrows) as (last_dd & rows' & _ & Hlast_dd).
    destruct df as [|first_row df_tl] eqn:Edf; [contradiction|]. rewrite <- Edf in *.
    eexists. exists last_row. split; [exact Hlast|].
    split.
    { rewrite Edf at 1. cbn [hd]. apply (loc_slice_full_span df l');
        [now rewrite Edf | exact Hsnoc | exact Hsorted]. }
    unfold calculate_model_performance_stats.
    assert (Hv : iloc_last (values df) = Returns (snd last_row)).
    { rewrite Hsnoc. unfold values. rewrite map_app. apply iloc_last_snoc. }
    assert (Hi : iloc_last (index df) = Returns (fst last_row)).
    { rewrite Hsnoc. unfold index. rewrite map_app. apply iloc_last_snoc. }
    assert (Hf : iloc_first (index df) = Returns (fst first_row)) by now rewrite Edf.
    rewrite Hv, Hf, Hi. cbn [bind].
    rewrite get_sharpe_ratio_full_period. cbv zeta. cbn [bind].
    unfold calculate_draw_down. rewrite Erows. cbn [bind full_frame_mdd].
    rewrite Hlast_dd. cbn [bind].
    split; [reflexivity|]. split; reflexivity. }
  split; [intros ->; exact Hempty|]. split; [exact Hfull|].
  split.
  - intros [e He]. destruct df as [|row df]; [reflexivity|].
    destruct (Hfull ltac:(discriminate)) as (st & last_row & _ & _ & E & _).
    congruence.
  - intros ->. now exists IndexError.
Qed.

Lemma stats_fail_on_empty_frame_only_witness :
  calculate_model_performance_stats zero_quotes (@nil (date * num)) (Fin 1000)
  = Raises IndexError
  /\ exists st last_row,
       iloc_last (fin_series sharpe_scenario) = Returns last_row
       /\ loc_slice (fst (hd last_row (fin_series sharpe_scenario))) (fst last_row)
            (fin_series sharpe_scenario)
          = fin_series sharpe_scenario
       /\ calculate_model_performance_stats zero_quotes (fin_series sharpe_scenario)
            (Fin 1000) = Returns st
       /\ raw_value st = snd last_row
       /\ returns st = fsub (fdiv (snd last_row) (Fin 1000)) (of_int 1).
Proof.
  split.
  - apply (proj1 (stats_fail_on_empty_frame_only num num_arith zero_quotes []
                    (Fin 1000) ltac:(constructor))). reflexivity.
  - apply (proj1 (proj2 (stats_fail_on_empty_frame_only num num_arith zero_quotes
                           (fin_series sharpe_scenario) (Fin 1000)
                           ltac:(repeat constructor)))).
    discriminate.
Defined.

(** * [prepare_portfolio_df] *)

Section PrepareFacts.
Context {A : Type} `{Arith A}.

Lemma merge_closes_from (bdays : list date) (download : string -> series A)
    (tickers : list (string * A)) :
  forall cols : list (string * series A),
    Forall (fun c => fill (snd c) = snd c) cols ->
    fold_left
      (fun cols t =>
         map (fun c => (fst c, fill (snd c)))
             (cols ++ [(fst t, reindex bdays (download (fst t)))]))
      tickers cols
    = cols ++ map (fun t => (fst t, fill (reindex bdays (download (fst t))))) tickers.
Proof.
  induction tickers as [|t tickers IH]; intros cols Hcols; cbn [fold_left map].
  - now rewrite app_nil_r.
  - assert (E : map (fun c => (fst c, fill (snd c)))
                  (cols ++ [(fst t, reindex bdays (download (fst t)))])
                = cols ++ [(fst t, fill (reindex bdays (download (fst t))))]).
    { rewrite map_app. cbn [map fst snd]. f_equal.
      rewrite <- (map_id cols) at 2. apply map_ext_in. intros [name c] Hin.
      rewrite Forall_forall in Hcols. specialize (Hcols _ Hin). cbn [fst snd] in *.
      now rewrite Hcols. }
    rewrite E, IH.
    + rewrite <- app_assoc. reflexivity.
    + apply Forall_app. split; [exact Hcols|].
      constructor; [|constructor]. cbn [snd]. apply fill_idempotent.
Qed.

Lemma merge_closes_columns (bdays : list date) (download : string -> series A)
    (tickers : list (string * A)) :
  merge_closes bdays download tickers
  = map (fun t => (fst t, fill (reindex bdays (download (fst t))))) tickers
  /\ Forall (fun c => index (snd c) = bdays) (merge_closes bdays download tickers).
Proof.
  assert (E : merge_closes bdays download tickers
              = map (fun t => (fst t, fill (reindex bdays (download (fst t))))) tickers).
  { unfold merge_closes. now rewrite merge_closes_from by constructor. }
  split; [exact E|].
  rewrite E, Forall_map. apply Forall_forall. intros t _. cbn [snd].
  now rewrite index_fill, index_reindex.
Qed.

(** X15.  Filling the whole frame after each join changes no column that
    was filled before: every close column is its ticker's download joined
    on the business-day index and filled once, forward then backward, and
    it has that index. *)
Theorem close_columns_filled_once :
  forall (bdays : list date) (download : string -> series A)
         (tickers : list (string * A)),
    merge_closes bdays download tickers
    = map (fun t => (fst t, fill (reindex bdays (download (fst t))))) tickers
    /\ Forall (fun c => index (snd c) = bdays) (merge_closes bdays download tickers).
Proof. intros. apply merge_closes_columns. Qed.

End PrepareFacts.

Lemma py_abs_fin (x : R) : py_abs (Fin x) = Fin (Rabs x).
Proof.
  unfold py_abs. cbn [flt num_arith nltb of_int]. unfold Rltb.
  destruct (Rlt_dec x 0) as [Hx | Hx].
  - rewrite Rabs_left by assumption. cbn [fsub num_arith nsub nopp nadd].
    f_equal. lra.
  - rewrite Rabs_right by lra. reflexivity.
Qed.

Lemma total_abs_weight_fin (tickers : list (string * R)) :
  total_abs_weight (map (fun t => (fst t, Fin (snd t))) tickers)
  = Fin (Rsum (map (fun t => Rabs (snd t)) tickers)).
Proof.
  unfold total_abs_weight. change (of_int 0) with (Fin 0).
  assert (G : forall a,
             fold_left (fun acc t => fadd acc (py_abs (snd t)))
               (map (fun t : string * R => (fst t, Fin (snd t))) tickers) (Fin a)
             = Fin (a + Rsum (map (fun t => Rabs (snd t)) tickers))).
  { induction tickers as [|t tickers IH]; intro a; cbn [map fold_left snd].
    - f_equal. unfold Rsum. simpl. lra.
    - rewrite py_abs_fin. cbn [fadd num_arith nadd]. rewrite IH.
      f_equal. unfold Rsum. simpl. lra. }
  rewrite G. f_equal. lra.
Qed.

(** The two tests at the head of [prepare_portfolio_df], in any
    arithmetic. *)
Lemma prepare_guard {A : Type} `{Arith A} (bdays : list date)
    (download : string -> series A) (tickers : list (string * A)) (base : A) :
  (tickers = [] \/ flt (of_int 1) (total_abs_weight tickers) = true ->
   prepare_portfolio_df bdays download tickers base = Raises ValueError)
  /\ (tickers <> [] ->
      flt (of_int 1) (total_abs_weight tickers) = false ->
      exists df,
        prepare_portfolio_df bdays download tickers base = Returns df
        /\ pf_index df = bdays
        /\ map fst (pf_close df) = map fst tickers
        /\ Forall (fun c => index (snd c) = bdays) (pf_close df)).
Proof.
  split.
  - intros [-> | Hsum]; [reflexivity|].
    destruct tickers as [|t tickers]; [reflexivity|].
    unfold prepare_portfolio_df. now rewrite Hsum.
  - intros Hne Hsum.
    destruct tickers as [|t tickers]; [contradiction|].
    unfold prepare_portfolio_df. rewrite Hsum. cbv zeta.
    eexists. split; [reflexivity|]. cbn [pf_index pf_close].
    destruct (merge_closes_columns bdays download (t :: tickers)) as [E Hidx].
    repeat split; [|exact Hidx].
    rewrite E, map_map. reflexivity.
Qed.

(** X16.  [prepare_portfolio_df] raises ValueError, before any column is
    built, on an empty ticker mapping and when its test
    [sum(abs(w)) > 1] succeeds on the sum as the interpreter computes it
    (the absolute weights added from left to right, in the order of the
    mapping, with the rounding of the arithmetic).  Otherwise it returns a
    frame on the business-day index with one close column per ticker, in
    the order of the mapping. *)
Theorem prepare_validates_weights :
  forall (A : Type) (arith : Arith A) (bdays : list date)
         (download : string -> series A) (tickers : list (string * A)) (base : A),
    (tickers = [] \/ flt (of_int 1) (total_abs_weight tickers) = true ->
     prepare_portfolio_df bdays download tickers base = Raises ValueError)
    /\ (tickers <> [] ->
        flt (of_int 1) (total_abs_weight tickers) = false ->
        exists df,
          prepare_portfolio_df bdays download tickers base = Returns df
          /\ pf_index df = bdays
          /\ map fst (pf_close df) = map fst tickers
          /\ Forall (fun c => index (snd c) = bdays) (pf_close df)).
Proof. intros A arith. exact (@prepare_guard A arith). Qed.

Section PrepareBinary64.
Import PrimFloat.

Lemma prepare_validates_weights_witness :
  prepare_portfolio_df sharpe_dates (fun _ => sharpe_scenario64)
    [("SPY"%string, 0x1.8p-1%float); ("GLD"%string, 0x1p-1%float)] 1000%float
  = Raises ValueError
  /\ exists df,
       prepare_portfolio_df sharpe_dates (fun _ => sharpe_scenario64)
         [("SPY"%string, 0x1p-1%float); ("GLD"%string, 0x1p-1%float)] 1000%float
       = Returns df
       /\ pf_index df = sharpe_dates
       /\ map fst (pf_close df)
          = map fst [("SPY"%string, 0x1p-1%float); ("GLD"%string, 0x1p-1%float)]
       /\ Forall (fun c => index (snd c) = sharpe_dates) (pf_close df).
Proof.
  split.
  - apply (proj1 (prepare_validates_weights PrimFloat.float float_arith sharpe_dates
                    (fun _ => sharpe_scenario64)
                    [("SPY"%string, 0x1.8p-1%float); ("GLD"%string, 0x1p-1%float)]
                    1000%float)).
    right. vm_compute. reflexivity.
  - apply (proj2 (prepare_validates_weights PrimFloat.float float_arith sharpe_dates
                    (fun _ => sharpe_scenario64)
                    [("SPY"%string, 0x1p-1%float); ("GLD"%string, 0x1p-1%float)]
                    1000%float)).
    + discriminate.
    + vm_compute. reflexivity.
Defined.

End PrepareBinary64.

(** With finite weights the test compares the sum of their absolute values
    with 1, in exact arithmetic. *)
Lemma prepare_returns_fin (bdays : list date) (download : string -> series num)
    (tickers : list (string * R)) (base : num) :
  tickers <> [] ->
  Rsum (map (fun t => Rabs (snd t)) tickers) <= 1 ->
  exists df,
    prepare_portfolio_df bdays download
      (map (fun t => (fst t, Fin (snd t))) tickers) base
    = Returns df.
Proof.
  intros Hne Hsum.
  destruct (proj2 (prepare_guard bdays download
                     (map (fun t => (fst t, Fin (snd t))) tickers) base))
    as (df & E & _).
  - destruct tickers; [contradiction | discriminate].
  - rewrite total_abs_weight_fin. cbn [flt num_arith nltb of_int].
    now apply Rltb_false.
  - now exists df.
Qed.

(** ** The portfolio value starts at [base] *)

Lemma series_add_head_zero (d0 : date) (cols : list (series num)) :
  forall acc,
    head_zero d0 acc ->
    Forall (head_zero d0) cols ->
    head_zero d0 (fold_left series_add cols acc).
Proof.
  induction cols as [|c cols IH]; intros acc Hacc Hcols; [exact Hacc|].
  inversion Hcols as [|? ? Hc Hrest]; subst.
  cbn [fold_left]. apply IH; [|exact Hrest].
  destruct Hacc as (a & ra & -> & Ha). destruct Hc as (z & rc & -> & Hz).
  unfold series_add. cbn [combine map fst snd fadd num_arith nadd].
  eexists. eexists. split; [reflexivity | lra].
Qed.

Lemma sum_columns_head_zero (d0 : date) (bdays : list date) (cols : list (series num)) :
  cols <> [] ->
  Forall (head_zero d0) cols ->
  head_zero d0 (sum_columns bdays cols).
Proof.
  intros Hne Hcols. destruct cols as [|c cols]; [contradiction|].
  inversion Hcols as [|? ? Hc Hrest]; subst.
  cbn [sum_columns]. apply series_add_head_zero; [|exact Hrest].
  destruct Hc as (z & rc & -> & Hz).
  cbn [map fst snd fadd num_arith nadd of_int].
  eexists. eexists. split; [reflexivity | lra].
Qed.

Lemma find_by_name {T : Type} (name : string) (l : list (string * T)) :
  In name (map fst l) ->
  exists c, find (fun c => String.eqb (fst c) name) l = Some c /\ In c l.
Proof.
  induction l as [|[n c] l IH]; [contradiction|]. cbn [map fst find]. intro Hin.
  destruct (String.eqb n name) eqn:E.
  - eexists. split; [reflexivity | now left].
  - destruct Hin as [-> | Hin]; [now rewrite String.eqb_refl in E|].
    destruct (IH Hin) as (c' & Hf & Hc'). exists c'. split; [exact Hf | now right].
Qed.

Lemma first_value_of_returned_frame (d0 : date) (bdays : list date)
    (download : string -> series num) (tickers : list (string * R)) (base : R) :
  tickers <> [] ->
  flt (of_int 1)
      (total_abs_weight (map (fun t => (fst t, Fin (snd t))) tickers)) = false ->
  exists df,
    prepare_portfolio_df (d0 :: bdays) download
      (map (fun t => (fst t, Fin (snd t))) tickers) (Fin base)
    = Returns df
    /\ hd_error (pf_val df) = Some (d0, Fin base).
Proof.
  intros Hne Hsum.
  destruct tickers as [|t tickers]; [contradiction|].
  unfold prepare_portfolio_df.
  change (map (fun t0 : string * R => (fst t0, Fin (snd t0))) (t :: tickers))
    with ((fst t, Fin (snd t))
          :: map (fun t0 : string * R => (fst t0, Fin (snd t0))) tickers) at 1.
  cbv iota. rewrite Hsum. cbv zeta.
  eexists. split; [reflexivity|]. cbn [pf_val of_int num_arith].
  set (tk := map (fun t0 : string * R => (fst t0, Fin (snd t0))) (t :: tickers)).
  destruct (merge_closes_columns (d0 :: bdays) download tk) as [Ecl Hidx].
  set (closes := merge_closes (d0 :: bdays) download tk) in *.
  set (pcts := map (fun c => (fst c, fillna (Fin 0) (pct_change (snd c)))) closes).
  assert (Hpcts : Forall (fun c => head_zero d0 (snd c)) pcts).
  { unfold pcts. rewrite Forall_map. eapply Forall_impl; [|exact Hidx].
    intros [name c] Hc. cbn [snd] in *.
    destruct c as [|[d x] c]; [discriminate|].
    cbn [index map fst] in Hc. injection Hc as -> _.
    cbn [pct_change fillna map fst snd fisnan num_arith nisnan].
    eexists. eexists. split; reflexivity. }
  assert (Hnames : map fst pcts = map fst tk).
  { unfold pcts. rewrite map_map. cbn [fst]. rewrite Ecl, map_map.
    reflexivity. }
  set (weighted :=
         map (fun t0 : string * num =>
                scale (snd t0)
                  match find (fun c => String.eqb (fst c) (fst t0)) pcts with
                  | Some c => snd c
                  | None => []
                  end) tk).
  assert (Hw : Forall (head_zero d0) weighted).
  { unfold weighted. rewrite Forall_map. apply Forall_forall. intros [name w] Hin.
    cbn [fst snd].
    assert (Hname : In name (map fst pcts)).
    { rewrite Hnames. apply in_map_iff. now exists (name, w). }
    destruct (find_by_name name pcts Hname) as (c & -> & Hc).
    rewrite Forall_forall in Hpcts. destruct (Hpcts c Hc) as (z & rest & -> & Hz).
    unfold tk in Hin. apply in_map_iff in Hin. destruct Hin as (t0 & E0 & _).
    injection E0 as _ <-.
    cbn [scale map fst snd fmul num_arith nmul].
    eexists. eexists. split; [reflexivity|]. subst z. lra. }
  assert (Hwne : weighted <> []) by (unfold weighted, tk; discriminate).
  destruct (sum_columns_head_zero d0 (d0 :: bdays) weighted Hwne Hw)
    as (z & rest & E & Hz).
  fold weighted. rewrite E.
  cbn [map fst snd fadd fmul num_arith nadd nmul of_int cumprod cumprod_from
       fisnan nisnan hd_error].
  do 3 f_equal. subst z. lra.
Qed.

(** X17.  Whenever [prepare_portfolio_df] returns a frame (finite weights
    and base, a business-day index that is not empty), the portfolio value
    of the first business day is [base]: the first percent change of every
    column is filled with 0. *)
Theorem portfolio_value_starts_at_base :
  forall (d0 : date) (bdays : list date) (download : string -> series num)
         (tickers : list (string * R)) (base : R) (df : portfolio_df num),
    prepare_portfolio_df (d0 :: bdays) download
      (map (fun t => (fst t, Fin (snd t))) tickers) (Fin base)
    = Returns df ->
    hd_error (pf_val df) = Some (d0, Fin base).
Proof.
  intros d0 bdays download tickers base df Hdf.
  destruct tickers as [|t tickers]; [discriminate|].
  destruct (flt (of_int 1)
              (total_abs_weight
                 (map (fun t0 : string * R => (fst t0, Fin (snd t0))) (t :: tickers))))
    eqn:Hsum.
  - pose proof (proj1 (prepare_guard (d0 :: bdays) download
                         (map (fun t0 : string * R => (fst t0, Fin (snd t0)))
                              (t :: tickers)) (Fin base))
                  (or_intror Hsum)) as E.
    rewrite E in Hdf. discriminate.
  - destruct (first_value_of_returned_frame d0 bdays download (t :: tickers) base
                ltac:(discriminate) Hsum) as (df' & E & Hhd).
    congruence.
Qed.

Lemma portfolio_value_starts_at_base_witness :
  exists df,
    prepare_portfolio_df (mkdate 2024 1 1 :: tl sharpe_dates)
      (fun _ => fin_series sharpe_scenario)
      (map (fun t => (fst t, Fin (snd t))) [("SPY"%string, 0.5); ("GLD"%string, 0.5)])
      (Fin 1000)
    = Returns df
    /\ hd_error (pf_val df) = Some (mkdate 2024 1 1, Fin 1000).
Proof.
  destruct (prepare_returns_fin (mkdate 2024 1 1 :: tl sharpe_dates)
              (fun _ => fin_series sharpe_scenario)
              [("SPY"%string, 0.5); ("GLD"%string, 0.5)] (Fin 1000))
    as (df & E).
  - discriminate.
  - unfold Rsum. simpl. rewrite !Rabs_right by lra. lra.
  - exists df. split; [exact E|].
    exact (portfolio_value_starts_at_base (mkdate 2024 1 1) (tl sharpe_dates)
             (fun _ => fin_series sharpe_scenario)
             [("SPY"%string, 0.5); ("GLD"%string, 0.5)] 1000 df E).
Defined.

(** ** A portfolio of one asset *)

Lemma loc_unique {A : Type} `{Arith A} (d : date) (v : A) (s : series A) :
  NoDup (index s) -> In (d, v) s -> loc d s = Some v.
Proof.
  induction s as [|[d' v'] s IH]; [contradiction|].
  cbn [index map fst loc]. intros Hnd Hin.
  apply NoDup_cons_iff in Hnd. destruct Hnd as [Hd' Hnd].
  destruct (date_eqb d d') eqn:E.
  - apply date_eqb_eq in E. subst d'. destruct Hin as [Hin | Hin].
    + now injection Hin as ->.
    + exfalso. apply Hd'. unfold index. apply in_map_iff. now exists (d, v).
  - destruct Hin as [Hin | Hin]; [|now apply IH].
    injection Hin as -> _. now rewrite (proj2 (date_eqb_eq d d) eq_refl) in E.
Qed.

Lemma reindex_self {A : Type} `{Arith A} (s : series A) :
  NoDup (index s) -> reindex (index s) s = s.
Proof.
  intro Hnd. unfold reindex, index. rewrite map_map.
  transitivity (map (fun row : date * A => row) s); [|apply map_id].
  apply map_ext_in. intros [d v] Hin. cbn [fst].
  now rewrite (loc_unique d v s Hnd Hin).
Qed.

Lemma fill_id_numbers {A : Type} `{Arith A} (s : series A) :
  Forall is_number s -> fill s = s.
Proof.
  intro Hall. unfold fill, bfill, ffill.
  rewrite (ffill_from_id_numbers s None Hall).
  rewrite ffill_from_id_numbers by now apply Forall_rev.
  apply rev_involutive.
Qed.

Lemma tracking_tail (b c0 : R) (rest : list (date * R)) :
  forall prev acc : R,
    0 < c0 -> 0 < prev -> acc = prev / c0 ->
    Forall (fun row => 0 < snd row) rest ->
    map (fun row => (fst row, fmul (Fin b) (snd row)))
      (cumprod_from (Some (Fin acc))
         (map (fun row => (fst row, fadd (of_int 1) (snd row)))
            (map (fun row => (fst row, fadd (of_int 0) (snd row)))
               (scale (Fin 1)
                  (fillna (of_int 0)
                     (pct_change_from (Fin prev) (fin_series rest)))))))
    = map (fun row => (fst row, Fin (b * (snd row / c0)))) rest.
Proof.
  unfold scale, fillna.
  induction rest as [|[d v] rest IH]; intros prev acc Hc0 Hprev Hacc Hpos;
    [reflexivity|].
  inversion Hpos as [|? ? Hv Hrest]; subst. cbn [snd] in Hv.
  cbn [fin_series map fst snd pct_change_from].
  cbn [fsub fdiv of_int num_arith]. rewrite ndiv_fin by lra. rewrite nsub_fin.
  cbn [fisnan num_arith nisnan fmul fadd nmul nadd cumprod_from of_int map fst snd].
  f_equal.
  - do 2 f_equal. field. lra.
  - fold (fin_series rest).
    apply (IH v); [assumption | assumption | field; lra | assumption].
Qed.

(** X18.  A portfolio fully invested in one asset tracks it: when the
    download covers every business day with a strictly positive close, the
    portfolio value on each day is [base * close / first close]. *)
Theorem single_asset_portfolio_tracks_close :
  forall (name : string) (cs : list (date * R)) (download : string -> series num)
         (base : R),
    cs <> [] ->
    NoDup (map fst cs) ->
    Forall (fun row => 0 < snd row) cs ->
    download name = fin_series cs ->
    exists df c0,
      prepare_portfolio_df (map fst cs) download [(name, Fin 1)] (Fin base)
      = Returns df
      /\ hd_error (map snd cs) = Some c0
      /\ pf_val df = map (fun row => (fst row, Fin (base * (snd row / c0)))) cs.
Proof.
  intros name cs download base Hne Hnd Hpos Hdl.
  destruct cs as [|[d0 c0] cs]; [contradiction|].
  assert (Hc0 : 0 < c0) by (inversion Hpos; assumption).
  assert (Hrest : Forall (fun row => 0 < snd row) cs) by (inversion Hpos; assumption).
  unfold prepare_portfolio_df.
  assert (Hw : total_abs_weight [(name, Fin 1)]
               = Fin (Rsum (map (fun t : string * R => Rabs (snd t)) [(name, 1)])))
    by apply (total_abs_weight_fin [(name, 1)]).
  rewrite Hw. cbn [flt num_arith nltb of_int].
  rewrite Rltb_false
    by (unfold Rsum; cbn [map snd fold_right]; rewrite Rabs_right by lra; lra).
  cbv zeta.
  eexists. exists c0. split; [reflexivity|]. split; [reflexivity|]. cbn [pf_val].
  assert (Ecl : merge_closes (map fst ((d0, c0) :: cs)) download [(name, Fin 1)]
                = [(name, fin_series ((d0, c0) :: cs))]).
  { rewrite (proj1 (merge_closes_columns _ _ _)).
    replace (map fst ((d0, c0) :: cs)) with (index (fin_series ((d0, c0) :: cs)))
      by (unfold index, fin_series; rewrite map_map; reflexivity).
    cbn [map fst]. rewrite Hdl.
    rewrite reindex_self.
    - rewrite fill_id_numbers; [reflexivity|].
      unfold fin_series. rewrite Forall_map. apply Forall_forall. now intros.
    - unfold index, fin_series. rewrite map_map. exact Hnd. }
  rewrite Ecl. cbn [map fst snd find]. rewrite String.eqb_refl.
  cbn [snd sum_columns fold_left fin_series map fst pct_change fillna scale
       fisnan num_arith nisnan fnan fmul fadd nmul nadd of_int cumprod cumprod_from].
  f_equal.
  - do 2 f_equal. field. lra.
  - pose proof (tracking_tail base c0 cs c0 (1 + (0 + 0 * 1)) Hc0 Hc0) as Ht.
    unfold scale, fillna in Ht. cbn [of_int num_arith] in Ht.
    apply Ht; [field; lra | exact Hrest].
Qed.

Lemma single_asset_portfolio_tracks_close_witness :
  exists df c0,
    prepare_portfolio_df (map fst sharpe_scenario)
      (fun _ => fin_series sharpe_scenario) [("SPY"%string, Fin 1)] (Fin 1000)
    = Returns df
    /\ hd_error (map snd sharpe_scenario) = Some c0
    /\ pf_val df
       = map (fun row => (fst row, Fin (1000 * (snd row / c0)))) sharpe_scenario.
Proof.
  apply (single_asset_portfolio_tracks_close "SPY" sharpe_scenario
           (fun _ => fin_series sharpe_scenario) 1000).
  - discriminate.
  - repeat constructor; simpl; intuition discriminate.
  - repeat constructor; simpl; lra.
  - reflexivity.
Defined.
